(** * clearquote-FE: the dashboard's status poller and the chat page's send guard

    A shallow embedding of the two pieces of client logic of the repository
    that carry behaviour worth proving:

    - [Dashboard]: the configuration-status poller of [src/app/page.tsx]
      ([fetchConfigStatus], [handleManualRefresh], [startPolling],
      [handleVisibilityChange], the effect's cleanup, [getStatusColor] and
      [getStatusIcon]);
    - [Chat]: [handleSendMessage] of the chat page.

    The component is a React function component.  What React and the browser
    contribute is written out as explicit state:

    - the [useState] cells are the record [View];
    - the two [useRef] cells, the browser's timer tables, the requests in
      flight and the clock are the remaining fields of [Dashboard];
    - a callback built by [useCallback (..., [retryCount])] reads the
      [retryCount] of the render that built it, so every function that the
      source closes over [retryCount] takes that captured value as its first
      argument [k], and every timer and request remembers the [k] of the
      callback it will run;
    - [useEffect (..., [fetchConfigStatus])] runs its cleanup and its body
      again after a render in which [retryCount] changed: that is [commit]. *)

From stdpp Require Import gmap strings pretty.
From Equations Require Import Equations.

Local Open Scope N_scope.

Module Dashboard.

(** ** Data model *)

Record Validation := {
  is_valid : bool;
  missing : list string
}.

Record ConfigStatus := {
  gemini_api_key_set : bool;
  db_url_set : bool;
  gemini_model : string;
  validation : Validation
}.

Definition POLL_INTERVAL : N := 5000.
Definition MAX_RETRIES : N := 3.
Definition RETRY_DELAY : N := 2000.

(** The [useState] cells of [Dashboard] that the poller touches
    ([activeTab] and [showStatusTooltip] belong to the tab bar). *)
Record View := {
  configStatus : option ConfigStatus;
  isLoading : bool;
  lastUpdate : option N;
  isRefreshing : bool;
  retryCount : N;
  error : option string
}.

(** A value a [catch] clause can receive. *)
Inductive Thrown :=
  | ErrorObject (message : string)
  | OtherValue.

(** What the network does with one [fetch]: the promise rejects, or a
    response arrives whose body is JSON for a [ConfigStatus] ([inr]) or makes
    [response.json()] reject with a message ([inl]). *)
Inductive FetchOutcome :=
  | Rejects (err : Thrown)
  | Responds (status : N) (body : string + ConfigStatus).

(** A request in flight: the [retryCount] captured by the
    [fetchConfigStatus] that issued it, and its [isManualRefresh] argument. *)
Record Request := {
  req_closure : N;
  req_manual : bool
}.

(** A pending [setTimeout]: its delay, the clock value at which it is due and
    the [retryCount] captured by the [fetchConfigStatus] it will call. *)
Record Timeout := {
  to_delay : N;
  to_due : N;
  to_closure : N
}.

(** An armed [setInterval]. *)
Record Interval := {
  iv_period : N;
  iv_due : N;
  iv_closure : N
}.

Record Dashboard := {
  view : View;
  intervalRef : option positive;
  retryTimeoutRef : option positive;
  intervals : gmap positive Interval;
  timeouts : gmap positive Timeout;
  requests : gmap positive Request;
  clock : N;
  fresh : positive
}.

(** ** State setters *)

Definition withView (f : View → View) (s : Dashboard) : Dashboard :=
  {| view := f (view s); intervalRef := intervalRef s;
     retryTimeoutRef := retryTimeoutRef s; intervals := intervals s;
     timeouts := timeouts s; requests := requests s; clock := clock s;
     fresh := fresh s |}.

Definition setConfigStatus (c : option ConfigStatus) : Dashboard → Dashboard :=
  withView (λ v, {| configStatus := c; isLoading := isLoading v;
                    lastUpdate := lastUpdate v; isRefreshing := isRefreshing v;
                    retryCount := retryCount v; error := error v |}).

Definition setIsLoading (b : bool) : Dashboard → Dashboard :=
  withView (λ v, {| configStatus := configStatus v; isLoading := b;
                    lastUpdate := lastUpdate v; isRefreshing := isRefreshing v;
                    retryCount := retryCount v; error := error v |}).

Definition setLastUpdate (t : option N) : Dashboard → Dashboard :=
  withView (λ v, {| configStatus := configStatus v; isLoading := isLoading v;
                    lastUpdate := t; isRefreshing := isRefreshing v;
                    retryCount := retryCount v; error := error v |}).

Definition setIsRefreshing (b : bool) : Dashboard → Dashboard :=
  withView (λ v, {| configStatus := configStatus v; isLoading := isLoading v;
                    lastUpdate := lastUpdate v; isRefreshing := b;
                    retryCount := retryCount v; error := error v |}).

(** [setRetryCount] is used with a value and with an updater function; a
    value is the constant updater. *)
Definition setRetryCount (f : N → N) : Dashboard → Dashboard :=
  withView (λ v, {| configStatus := configStatus v; isLoading := isLoading v;
                    lastUpdate := lastUpdate v; isRefreshing := isRefreshing v;
                    retryCount := f (retryCount v); error := error v |}).

Definition setError (e : option string) : Dashboard → Dashboard :=
  withView (λ v, {| configStatus := configStatus v; isLoading := isLoading v;
                    lastUpdate := lastUpdate v; isRefreshing := isRefreshing v;
                    retryCount := retryCount v; error := e |}).

Definition setIntervalRef (r : option positive) (s : Dashboard) : Dashboard :=
  {| view := view s; intervalRef := r;
     retryTimeoutRef := retryTimeoutRef s; intervals := intervals s;
     timeouts := timeouts s; requests := requests s; clock := clock s;
     fresh := fresh s |}.

Definition setRetryTimeoutRef (r : option positive) (s : Dashboard) : Dashboard :=
  {| view := view s; intervalRef := intervalRef s;
     retryTimeoutRef := r; intervals := intervals s;
     timeouts := timeouts s; requests := requests s; clock := clock s;
     fresh := fresh s |}.

(** ** The browser: timers, requests, clock *)

(** [setInterval (cb, period)], where [cb] calls the [fetchConfigStatus]
    that captured [k]; returns the new handle. *)
Definition setInterval (k period : N) (s : Dashboard) : positive * Dashboard :=
  (fresh s,
   {| view := view s; intervalRef := intervalRef s;
      retryTimeoutRef := retryTimeoutRef s;
      intervals := <[fresh s := {| iv_period := period;
                                   iv_due := clock s + period;
                                   iv_closure := k |}]> (intervals s);
      timeouts := timeouts s; requests := requests s; clock := clock s;
      fresh := Pos.succ (fresh s) |}).

Definition clearInterval (id : positive) (s : Dashboard) : Dashboard :=
  {| view := view s; intervalRef := intervalRef s;
     retryTimeoutRef := retryTimeoutRef s;
     intervals := delete id (intervals s);
     timeouts := timeouts s; requests := requests s; clock := clock s;
     fresh := fresh s |}.

Definition setTimeout (k delay : N) (s : Dashboard) : positive * Dashboard :=
  (fresh s,
   {| view := view s; intervalRef := intervalRef s;
      retryTimeoutRef := retryTimeoutRef s; intervals := intervals s;
      timeouts := <[fresh s := {| to_delay := delay;
                                  to_due := clock s + delay;
                                  to_closure := k |}]> (timeouts s);
      requests := requests s; clock := clock s;
      fresh := Pos.succ (fresh s) |}).

Definition clearTimeout (id : positive) (s : Dashboard) : Dashboard :=
  {| view := view s; intervalRef := intervalRef s;
     retryTimeoutRef := retryTimeoutRef s; intervals := intervals s;
     timeouts := delete id (timeouts s);
     requests := requests s; clock := clock s; fresh := fresh s |}.

(** One [fetch] leaves; its promise settles in a later event. *)
Definition send (r : Request) (s : Dashboard) : Dashboard :=
  {| view := view s; intervalRef := intervalRef s;
     retryTimeoutRef := retryTimeoutRef s; intervals := intervals s;
     timeouts := timeouts s;
     requests := <[fresh s := r]> (requests s); clock := clock s;
     fresh := Pos.succ (fresh s) |}.

Definition settled (id : positive) (s : Dashboard) : Dashboard :=
  {| view := view s; intervalRef := intervalRef s;
     retryTimeoutRef := retryTimeoutRef s; intervals := intervals s;
     timeouts := timeouts s;
     requests := delete id (requests s); clock := clock s;
     fresh := fresh s |}.

Definition elapse (dt : N) (s : Dashboard) : Dashboard :=
  {| view := view s; intervalRef := intervalRef s;
     retryTimeoutRef := retryTimeoutRef s; intervals := intervals s;
     timeouts := timeouts s; requests := requests s; clock := clock s + dt;
     fresh := fresh s |}.

Definition rearm (id : positive) (i : Interval) (s : Dashboard) : Dashboard :=
  {| view := view s; intervalRef := intervalRef s;
     retryTimeoutRef := retryTimeoutRef s;
     intervals := <[id := {| iv_period := iv_period i;
                             iv_due := iv_due i + iv_period i;
                             iv_closure := iv_closure i |}]> (intervals s);
     timeouts := timeouts s; requests := requests s; clock := clock s;
     fresh := fresh s |}.

(** ** [fetchConfigStatus] *)

(** [response.ok] *)
Definition response_ok (status : N) : bool :=
  (200 <=? status) && (status <=? 299).

(** The [try] block up to and including [await response.json()]: the parsed
    payload, or what the [catch] clause receives. *)
Definition attempt (o : FetchOutcome) : Thrown + ConfigStatus :=
  match o with
  | Rejects err => inl err
  | Responds status body =>
      if response_ok status then
        match body with
        | inr data => inr data
        | inl msg => inl (ErrorObject msg)
        end
      else inl (ErrorObject ("HTTP error! status: " +:+ pretty status))
  end.

(** [err instanceof Error ? err.message : 'Unknown error'] *)
Definition describe (err : Thrown) : string :=
  match err with
  | ErrorObject message => message
  | OtherValue => "Unknown error"
  end.

(** The synchronous part of [fetchConfigStatus], up to [await fetch (...)]. *)
Definition fetchConfigStatus (k : N) (isManualRefresh : bool)
    (s : Dashboard) : Dashboard :=
  let s := if isManualRefresh then setIsRefreshing true s else s in
  send {| req_closure := k; req_manual := isManualRefresh |} s.

(** The rest of the [try] block, after a payload was parsed. *)
Definition onFulfilled (isManualRefresh : bool) (data : ConfigStatus)
    (s : Dashboard) : Dashboard :=
  let s := setConfigStatus (Some data) s in
  let s := setLastUpdate (Some (clock s)) s in
  let s := setIsLoading false s in
  let s := setError None s in
  let s := setRetryCount (λ _, 0) s in
  if isManualRefresh then setIsRefreshing false s else s.

(** The [catch] block.  [Math.pow (2, retryCount)] is computed only below
    [MAX_RETRIES], where it is the exact power of two. *)
Definition onRejected (k : N) (isManualRefresh : bool) (err : Thrown)
    (s : Dashboard) : Dashboard :=
  let s := setError (Some (describe err)) s in
  let s := if isManualRefresh then setIsRefreshing false s else s in
  if k <? MAX_RETRIES then
    let delay := RETRY_DELAY * 2 ^ k in
    let '(id, s) := setTimeout k delay s in
    setRetryTimeoutRef (Some id) s
  else
    let s := setIsLoading false s in
    setConfigStatus None s.

(** The continuation of [fetchConfigStatus] once its request has settled. *)
Definition resume (r : Request) (o : FetchOutcome) (s : Dashboard) : Dashboard :=
  match attempt o with
  | inr data => onFulfilled (req_manual r) data s
  | inl err => onRejected (req_closure r) (req_manual r) err s
  end.

(** The callback handed to [setTimeout] in the [catch] block. *)
Definition retryCallback (k : N) (s : Dashboard) : Dashboard :=
  let s := setRetryCount (λ prev, prev + 1) s in
  fetchConfigStatus k false s.

(** ** [handleManualRefresh] and the effect *)

(** [handleManualRefresh] is rebuilt with [fetchConfigStatus], so the
    [fetchConfigStatus] it calls captured the [retryCount] on screen. *)
Definition handleManualRefresh (s : Dashboard) : Dashboard :=
  let k := retryCount (view s) in
  let s := setRetryCount (λ _, 0) s in
  fetchConfigStatus k true s.

Definition startPolling (k : N) (s : Dashboard) : Dashboard :=
  let s := match intervalRef s with
           | Some id => clearInterval id s
           | None => s
           end in
  let '(id, s) := setInterval k POLL_INTERVAL s in
  setIntervalRef (Some id) s.

Definition handleVisibilityChange (k : N) (hidden : bool)
    (s : Dashboard) : Dashboard :=
  if hidden then
    match intervalRef s with
    | Some id => setIntervalRef None (clearInterval id s)
    | None => s
    end
  else
    let s := fetchConfigStatus k false s in
    startPolling k s.

(** The body of the effect, for the [fetchConfigStatus] that captured [k]. *)
Definition effect (k : N) (s : Dashboard) : Dashboard :=
  let s := fetchConfigStatus k false s in
  startPolling k s.

(** The function the effect returns. *)
Definition cleanup (s : Dashboard) : Dashboard :=
  let s := match intervalRef s with
           | Some id => clearInterval id s
           | None => s
           end in
  match retryTimeoutRef s with
  | Some id => clearTimeout id s
  | None => s
  end.

(** After a handler has run React renders again.  [fetchConfigStatus] is a
    new function exactly when [retryCount] differs from the rendered one, and
    then the effect that depends on it is cleaned up and run again. *)
Definition commit (rendered : N) (s : Dashboard) : Dashboard :=
  if decide (retryCount (view s) = rendered) then s
  else effect (retryCount (view s)) (cleanup s).

(** ** Derived presentation *)

(** JavaScript truthiness of a [string | null]. *)
Definition truthy (e : option string) : bool :=
  match e with
  | Some m => negb (String.eqb m "")
  | None => false
  end.

Definition getStatusColor (v : View) : string :=
  if truthy (error v) then "text-red-400"
  else match configStatus v with
       | None => "text-white/30"
       | Some c =>
           if is_valid (validation c) then "text-green-400"
           else if gemini_api_key_set c || db_url_set c then "text-yellow-400"
           else "text-red-400"
       end.

Inductive Icon := Wifi | WifiOff | AlertCircle.

Definition getStatusIcon (v : View) : Icon :=
  if isLoading v || isRefreshing v then Wifi
  else if truthy (error v) then WifiOff
  else match configStatus v with
       | None => WifiOff
       | Some c => if is_valid (validation c) then Wifi else AlertCircle
       end.

(** ** Events *)

Inductive Event :=
  | Elapse (dt : N)
  | TimeoutFires (id : positive)
  | IntervalTicks (id : positive)
  | FetchSettles (id : positive) (o : FetchOutcome)
  | VisibilityChange (hidden : bool)
  | ClickRefresh.

(** The handler an event runs, [None] when the event cannot happen: a timer
    fires only when it is pending and due, a request settles only while in
    flight, and the refresh button is [disabled] while [isRefreshing]. *)
Definition handle (e : Event) (s : Dashboard) : option Dashboard :=
  match e with
  | Elapse dt => Some (elapse dt s)
  | TimeoutFires id =>
      t ← timeouts s !! id;
      if to_due t <=? clock s
      then Some (retryCallback (to_closure t) (clearTimeout id s))
      else None
  | IntervalTicks id =>
      i ← intervals s !! id;
      if iv_due i <=? clock s
      then Some (fetchConfigStatus (iv_closure i) false (rearm id i s))
      else None
  | FetchSettles id o =>
      r ← requests s !! id;
      Some (resume r o (settled id s))
  | VisibilityChange hidden =>
      Some (handleVisibilityChange (retryCount (view s)) hidden s)
  | ClickRefresh =>
      if isRefreshing (view s) then None else Some (handleManualRefresh s)
  end.

Definition dispatch (e : Event) (s : Dashboard) : option Dashboard :=
  commit (retryCount (view s)) <$> handle e s.

Fixpoint run (es : list Event) (s : Dashboard) : option Dashboard :=
  match es with
  | [] => Some s
  | e :: es => s' ← dispatch e s; run es s'
  end.

(** The first render and the first run of the effect. *)
Definition initial : Dashboard :=
  {| view := {| configStatus := None; isLoading := true; lastUpdate := None;
                isRefreshing := false; retryCount := 0; error := None |};
     intervalRef := None; retryTimeoutRef := None;
     intervals := ∅; timeouts := ∅; requests := ∅;
     clock := 0; fresh := 1%positive |}.

Definition mount : Dashboard := effect 0 initial.

Inductive reachable : Dashboard → Prop :=
  | reachable_mount : reachable mount
  | reachable_step e s s' :
      reachable s → dispatch e s = Some s' → reachable s'.

(** ** Invariants of the reachable states *)

(** The timer tables are well formed: an armed interval is the one
    [intervalRef] names, and no handle in use has reached [fresh]. *)
Record wf (s : Dashboard) : Prop := {
  wf_interval_owned id i :
    intervals s !! id = Some i → intervalRef s = Some id;
  wf_interval_ref id : intervalRef s = Some id → (id < fresh s)%positive;
  wf_timeout_fresh id t : timeouts s !! id = Some t → (id < fresh s)%positive;
  wf_request_fresh id r : requests s !! id = Some r → (id < fresh s)%positive
}.


(** [s'] has the requests and the [isRefreshing] of [s]. *)
Definition quiet (s s' : Dashboard) : Prop :=
  requests s' = requests s ∧ isRefreshing (view s') = isRefreshing (view s).


(** ** The presentation as the specification words it

    The five-way branch of the specification, with the class names
    [getStatusColor] returns as the five representations (the first and the
    last share one): partially-configured when {e exactly one} of the two
    flags is set. *)
Definition presentation_spec (v : View) : string :=
  match error v with
  | Some _ => "text-red-400"
  | None =>
      match configStatus v with
      | None => "text-white/30"
      | Some c =>
          if is_valid (validation c) then "text-green-400"
          else if xorb (gemini_api_key_set c) (db_url_set c)
               then "text-yellow-400"
          else "text-red-400"
      end
  end.

(** ** Scenarios *)

Definition valid_config : ConfigStatus :=
  {| gemini_api_key_set := true; db_url_set := true;
     gemini_model := "gemini-pro";
     validation := {| is_valid := true; missing := [] |} |}.

(** Both secrets stored, the validation refused. *)
Definition rejected_config : ConfigStatus :=
  {| gemini_api_key_set := true; db_url_set := true;
     gemini_model := "gemini-pro";
     validation := {| is_valid := false; missing := [] |} |}.

Definition success : FetchOutcome := Responds 200 (inr valid_config).
Definition failure : FetchOutcome := Rejects (ErrorObject "Failed to fetch").

(** The first fetch succeeds; the first poll tick, five seconds later,
    fails. *)
Definition poll_fails : list Event :=
  [FetchSettles 1 success; Elapse 5000; IntervalTicks 2;
   FetchSettles 3 failure].

(** ... and so do the retry after 2000 ms and the retry after 4000 ms:
    three failed attempts in a row. *)
Definition three_failures : list Event :=
  poll_fails ++
  [Elapse 2000; TimeoutFires 4; FetchSettles 6 failure;
   Elapse 4000; TimeoutFires 8; FetchSettles 10 failure].

(** ... and the retry after 8000 ms, the fourth failed attempt. *)
Definition four_failures : list Event :=
  three_failures ++ [Elapse 8000; TimeoutFires 12; FetchSettles 14 failure].

(** The request left by the retry callback of the very first failure, which
    still reads [retryCount = 0], fails at last, and its own retry fires. *)
Definition stale_retry : list Event :=
  four_failures ++ [FetchSettles 5 failure; Elapse 2000; TimeoutFires 16].

(** The first fetch fails and its retry fires 2000 ms later. *)
Definition first_retry_fires : list Event :=
  [FetchSettles 1 failure; Elapse 2000; TimeoutFires 3].

(** The first fetch fails and the tab is hidden while its retry waits. *)
Definition hidden_mid_retry : list Event :=
  [FetchSettles 1 failure; VisibilityChange true].

(** The first fetch fails; the user refreshes while the retry waits and the
    manual fetch succeeds. *)
Definition refresh_mid_retry : list Event :=
  [FetchSettles 1 failure; ClickRefresh; FetchSettles 4 success].

(** ** The age of the last update *)

(** [getTimeSinceUpdate], rendered when the clock shows [now]. *)
Definition getTimeSinceUpdate (now : N) (v : View) : string :=
  match lastUpdate v with
  | None => ""
  | Some t =>
      let seconds := ((Z.of_N now - Z.of_N t) `div` 1000)%Z in
      if (seconds <? 60)%Z then pretty seconds +:+ "s ago"
      else
        let minutes := (seconds `div` 60)%Z in
        if (minutes <? 60)%Z then pretty minutes +:+ "m ago"
        else
          let hours := (minutes `div` 60)%Z in
          pretty hours +:+ "h ago"
  end.
(** The armed interval is the one of the current [fetchConfigStatus]. *)
Definition poll_current (s : Dashboard) : Prop :=
  ∀ id i, intervals s !! id = Some i →
    iv_period i = POLL_INTERVAL ∧ iv_closure i = retryCount (view s).

(** Every pending retry was armed by a failure below the bound. *)
Definition retries_bounded (s : Dashboard) : Prop :=
  ∀ id t, timeouts s !! id = Some t →
    to_closure t < MAX_RETRIES ∧ to_delay t = RETRY_DELAY * 2 ^ to_closure t.

(** The state a sequence of events leads to from the first render ([mount]
    itself when the sequence cannot happen). *)
Definition after (es : list Event) : Dashboard := default mount (run es mount).

End Dashboard.

Module Chat.

(** ** Strings

    [String.prototype.trim] is defined on UTF-16 code units, and the
    characters it strips lie outside ASCII too, so the chat page's strings
    are lists of code units. *)
Abbreviation ustring := (list N).

Definition lit (s : string) : ustring :=
  Ascii.N_of_ascii <$> String.list_ascii_of_string s.

(** ECMAScript [WhiteSpace] and [LineTerminator]: what [trim] strips. *)
Definition isWhiteSpace (c : N) : bool :=
  (9 <=? c) && (c <=? 13)
  || (c =? 32) || (c =? 160) || (c =? 5760)
  || (8192 <=? c) && (c <=? 8202)
  || (c =? 8232) || (c =? 8233) || (c =? 8239) || (c =? 8287)
  || (c =? 12288) || (c =? 65279).

Fixpoint trimStart (u : ustring) : ustring :=
  match u with
  | c :: u' => if isWhiteSpace c then trimStart u' else u
  | [] => []
  end.

Definition trimEnd (u : ustring) : ustring := reverse (trimStart (reverse u)).

Definition trim (u : ustring) : ustring := trimEnd (trimStart u).

(** JavaScript truthiness of a string. *)
Definition nonempty (u : ustring) : bool :=
  match u with [] => false | _ => true end.

Fixpoint startsWith (prefix u : ustring) : bool :=
  match prefix, u with
  | [], _ => true
  | p :: prefix', c :: u' => (p =? c) && startsWith prefix' u'
  | _ :: _, [] => false
  end.

Fixpoint includes (needle u : ustring) : bool :=
  startsWith needle u ||
  match u with
  | [] => false
  | _ :: u' => includes needle u'
  end.

(** ** Data model *)

Inductive Sender := user | assistant.

Record Metadata := {
  rowCount : N;
  generatedSql : ustring;
  validatedSql : ustring
}.

Record ChatMessage := {
  id : ustring;
  text : ustring;
  sender : Sender;
  timestamp : N;
  hasTable : option bool;
  error : option ustring;
  metadata : option Metadata
}.

Record APIResponse := {
  question : ustring;
  generated_sql : ustring;
  validated_sql : ustring;
  row_count : N;
  answer : ustring;
  api_error : option ustring;
  stage : ustring
}.

Inductive Thrown :=
  | ErrorObject (message : ustring)
  | OtherValue.

Inductive FetchOutcome :=
  | Rejects (err : Thrown)
  | Responds (status : N) (body : ustring + APIResponse).

(** The page: its [useState] cells, the questions posted to [/api/query]
    that have not settled yet (oldest first), and the clock. *)
Record ChatPage := {
  messages : list ChatMessage;
  input : ustring;
  isLoading : bool;
  posted : list ustring;
  clock : N
}.

Definition greeting : ustring :=
  lit "Hello! I can help you query vehicle repair data. Ask me questions like "
  ++ [34] ++ lit "Which car models have the highest repair costs?" ++ [34]
  ++ lit " or " ++ [34] ++ lit "Show me recent repairs." ++ [34].

Definition initial (now : N) : ChatPage :=
  {| messages := [ {| id := lit "1"; text := greeting; sender := assistant;
                      timestamp := now; hasTable := None; error := None;
                      metadata := None |} ];
     input := []; isLoading := false; posted := []; clock := now |}.

(** ** [handleSendMessage] *)

(** Up to [await fetch (...)]. *)
Definition handleSendMessage (s : ChatPage) : ChatPage :=
  if negb (nonempty (trim (input s))) || isLoading s then s
  else
    let userMessage :=
      {| id := lit (pretty (clock s)); text := input s; sender := user;
         timestamp := clock s; hasTable := None; error := None;
         metadata := None |} in
    let userQuestion := input s in
    {| messages := messages s ++ [userMessage];
       input := [];
       isLoading := true;
       posted := posted s ++ [userQuestion];
       clock := clock s |}.

Definition response_ok (status : N) : bool :=
  (200 <=? status) && (status <=? 299).

Definition attempt (o : FetchOutcome) : Thrown + APIResponse :=
  match o with
  | Rejects err => inl err
  | Responds status body =>
      if response_ok status then
        match body with
        | inr data => inr data
        | inl msg => inl (ErrorObject msg)
        end
      else inl (ErrorObject (lit ("HTTP error! status: " +:+ pretty status)))
  end.

Definition configurationRequired : ustring :=
  [9881; 65039] ++ lit " **Configuration Required**" ++ [10; 10]
  ++ lit "The Gemini API key is not configured. Please set up:" ++ [10; 10]
  ++ lit "1. **Gemini API Key**: Set the `GOOGLE_API_KEY` environment variable in your backend .env file"
  ++ [10]
  ++ lit "2. **Database Configuration**: Ensure your database connection is properly configured"
  ++ [10; 10]
  ++ lit "Once configured, restart your API server and try again.".

Definition troubleConnecting : ustring :=
  lit "Sorry, I had trouble connecting to the database. Please make sure the API server is running on http://127.0.0.1:8000".

(** The message the [try] block or the [catch] block appends. *)
Definition reply (now : N) (o : FetchOutcome) : ChatMessage :=
  match attempt o with
  | inr data =>
      match api_error data with
      | Some e =>
          if nonempty e then
            let isGeminiKeyError :=
              includes (lit "No API_KEY or ADC found") e
              || includes (lit "GOOGLE_API_KEY") e in
            {| id := lit (pretty (now + 1));
               text := if isGeminiKeyError then configurationRequired
                       else lit "I encountered an error: " ++ e;
               sender := assistant; timestamp := now; hasTable := None;
               error := Some e; metadata := None |}
          else
            {| id := lit (pretty (now + 1)); text := answer data;
               sender := assistant; timestamp := now;
               hasTable := Some (includes [124] (answer data));
               error := None;
               metadata := Some {| rowCount := row_count data;
                                   generatedSql := generated_sql data;
                                   validatedSql := validated_sql data |} |}
      | None =>
          {| id := lit (pretty (now + 1)); text := answer data;
             sender := assistant; timestamp := now;
             hasTable := Some (includes [124] (answer data));
             error := None;
             metadata := Some {| rowCount := row_count data;
                                 generatedSql := generated_sql data;
                                 validatedSql := validated_sql data |} |}
      end
  | inl err =>
      {| id := lit (pretty (now + 1)); text := troubleConnecting;
         sender := assistant; timestamp := now; hasTable := None;
         error := Some match err with
                       | ErrorObject message => message
                       | OtherValue => lit "Unknown error"
                       end;
         metadata := None |}
  end.

(** The rest of [handleSendMessage], when the oldest posted query settles:
    one message is appended and [finally] clears [isLoading]. *)
Definition resume (o : FetchOutcome) (s : ChatPage) : option ChatPage :=
  match posted s with
  | [] => None
  | _ :: rest =>
      Some {| messages := messages s ++ [reply (clock s) o];
              input := input s;
              isLoading := false;
              posted := rest;
              clock := clock s |}
  end.

(** Every code unit is one [trim] strips. *)
Definition blank (u : ustring) : Prop := Forall (λ c, isWhiteSpace c = true) u.

(** ** [renderTextWithBold] *)

(** The longest prefix without an asterisk, and the rest. *)
Fixpoint spanPlain (u : ustring) : ustring * ustring :=
  match u with
  | [] => ([], [])
  | c :: u' =>
      if c =? 42 then ([], u)
      else let '(a, b) := spanPlain u' in (c :: a, b)
  end.

(** No asterisk in it. *)
Abbreviation plain := (Forall (λ c : N, c ≠ 42)).

(** [/\*\*[^*]+\*\*/] tried at the start of [u]: what lies between the two
    pairs of asterisks, and what follows the match.  The class takes the
    whole run without asterisk, and giving characters back cannot help,
    because the pattern goes on with an asterisk. *)
Definition matchBold (u : ustring) : option (ustring * ustring) :=
  match u with
  | c1 :: c2 :: u1 =>
      if (c1 =? 42) && (c2 =? 42) then
        match spanPlain u1 with
        | (c :: body, d1 :: d2 :: rest) =>
            if (d1 =? 42) && (d2 =? 42) then Some (c :: body, rest) else None
        | _ => None
        end
      else None
  | _ => None
  end.

(** [text.split] at that pattern, which is captured as a whole: the text
    before each match, the match itself, and at the end what follows the
    last match.
    [acc] holds, last character first, the characters passed since the last
    match. *)
Equations? splitBold (acc : ustring) (u : ustring) : list ustring
  by wf (length u) lt :=
splitBold acc [] := [reverse acc];
splitBold acc (c :: u')
  with Equations.Prop.Logic.inspect (matchBold (c :: u')) := {
  | exist _ (Some (body, rest)) Heq =>
      reverse acc :: ([42; 42] ++ body ++ [42; 42]) :: splitBold [] rest
  | exist _ None Heq => splitBold (c :: acc) u' }.
Proof.
  assert (L : ∀ v, (length (spanPlain v).2 ≤ length v)%nat).
  { induction v as [|d v IH]; simpl; [lia|].
    destruct (d =? 42); simpl; [lia|].
    destruct (spanPlain v); simpl in *; lia. }
  destruct u' as [|c2 u1]; [done|].
  destruct ((c =? 42) && (c2 =? 42)); [|done].
  specialize (L u1).
  destruct (spanPlain u1) as [[|b0 b] [|d1 [|d2 r]]]; try done.
  destruct ((d1 =? 42) && (d2 =? 42)); [|done].
  injection Heq as _ <-. simpl in *. lia.
Defined.

Definition endsWith (suffix u : ustring) : bool :=
  startsWith (reverse suffix) (reverse u).

(** [u.slice(start, -fromEnd)] *)
Definition slice (start fromEnd : nat) (u : ustring) : ustring :=
  let from := (start `min` length u)%nat in
  let to := (length u - fromEnd)%nat in
  take (to - from) (drop from u).

Inductive Inline :=
  | Span (u : ustring)
  | Strong (u : ustring).

(** What [renderTextWithBold] makes of one part. *)
Definition renderPart (part : ustring) : Inline :=
  if startsWith [42; 42] part && endsWith [42; 42] part
  then Strong (slice 2 2 part)
  else Span part.

Definition renderTextWithBold (text : ustring) : list Inline :=
  renderPart <$> splitBold [] text.

(** ** The page over time *)

Inductive Event :=
  | Types (u : ustring)
  | Sends
  | Settles (o : FetchOutcome)
  | Elapses (dt : N).

(** The input element is [disabled] while [isLoading]; Enter and the button
    both call [handleSendMessage]. *)
Definition step (e : Event) (s : ChatPage) : option ChatPage :=
  match e with
  | Types u =>
      if isLoading s then None
      else Some {| messages := messages s; input := u;
                   isLoading := isLoading s; posted := posted s;
                   clock := clock s |}
  | Sends => Some (handleSendMessage s)
  | Settles o => resume o s
  | Elapses dt =>
      Some {| messages := messages s; input := input s;
              isLoading := isLoading s; posted := posted s;
              clock := clock s + dt |}
  end.

Fixpoint run (es : list Event) (s : ChatPage) : option ChatPage :=
  match es with
  | [] => Some s
  | e :: es => s' ← step e s; run es s'
  end.

Inductive reachable : ChatPage → Prop :=
  | reachable_initial now : reachable (initial now)
  | reachable_step e s s' : reachable s → step e s = Some s' → reachable s'.

End Chat.

(** * The settings page ([src/app/pages/settings.tsx]): the two secret
    fields, their mask, and [handleSave]; [handleTest] reads members of the
    reply whose types the source does not fix and is left out. *)
Module Settings.
Import Chat.

(** ** Data model *)

Inductive Field := api | db.

Record SettingsField := {
  label : ustring;
  value : ustring;
  isVisible : bool;
  isMasked : bool
}.

Inductive StatusType := idle | loading | success | error.

Record Status := {
  type : StatusType;
  message : option ustring;
  field : option Field
}.

(** The body of a reply to a save, as far as [handleSave] reads it. *)
Record SaveReply := {
  status : option ustring;
  reply_message : option ustring
}.

(** A reply: the promise of [fetch] rejects, or a response arrives whose
    body parses ([inr]) or makes [response.json()] reject ([inl]). *)
Inductive FetchOutcome :=
  | Rejects
  | Responds (code : N) (body : unit + SaveReply).

(** A save in flight: the [field] its [handleSave] was called with, and the
    value sent. *)
Record Save := {
  save_field : Field;
  save_body : ustring
}.

(** The page: its [useState] cells ([testStatus] belongs to [handleTest]),
    the saves in flight (oldest first), the delays of the pending
    [setTimeout]s, all of which reset [saveStatus], and when each is due. *)
Record SettingsPage := {
  apiKey : SettingsField;
  dbConnection : SettingsField;
  saveStatus : Status;
  saving : list Save;
  resets : list (N * N);
  clock : N
}.

Definition initial (now : N) : SettingsPage :=
  {| apiKey := {| label := lit "API Key"; value := []; isVisible := false;
                  isMasked := true |};
     dbConnection := {| label := lit "PostgreSQL Connection String";
                        value := []; isVisible := false; isMasked := true |};
     saveStatus := {| type := idle; message := None; field := None |};
     saving := []; resets := []; clock := now |}.

(** ** The fields *)

Definition bullet : N := 8226.

Definition maskValue (v : ustring) : ustring :=
  if (length v =? 0)%nat then []
  else if (length v <=? 4)%nat then replicate (length v) bullet
  else take 4 v ++ replicate (length v - 4) bullet.

(** The [value] attribute of the input element. *)
Definition shown (f : SettingsField) : ustring :=
  if isVisible f then value f else maskValue (value f).

Definition getField (which : Field) (s : SettingsPage) : SettingsField :=
  match which with api => apiKey s | db => dbConnection s end.

Definition setField (which : Field) (f : SettingsField)
    (s : SettingsPage) : SettingsPage :=
  {| apiKey := match which with api => f | db => apiKey s end;
     dbConnection := match which with api => dbConnection s | db => f end;
     saveStatus := saveStatus s; saving := saving s; resets := resets s;
     clock := clock s |}.

Definition toggleVisibility (which : Field) (s : SettingsPage) : SettingsPage :=
  let f := getField which s in
  setField which {| label := label f; value := value f;
                    isVisible := negb (isVisible f);
                    isMasked := isMasked f |} s.

(** [onChange]: the browser has applied the user's edit to the text the
    input element shows, and hands over the result. *)
Definition onChange (which : Field) (edit : ustring → ustring)
    (s : SettingsPage) : SettingsPage :=
  let f := getField which s in
  setField which {| label := label f; value := edit (shown f);
                    isVisible := isVisible f; isMasked := isMasked f |} s.

(** ** [handleSave] *)

Definition setSaveStatus (st : Status) (s : SettingsPage) : SettingsPage :=
  {| apiKey := apiKey s; dbConnection := dbConnection s; saveStatus := st;
     saving := saving s; resets := resets s; clock := clock s |}.

(** [setTimeout (() => setSaveStatus ({type: 'idle'}), delay)] *)
Definition resetLater (delay : N) (s : SettingsPage) : SettingsPage :=
  {| apiKey := apiKey s; dbConnection := dbConnection s;
     saveStatus := saveStatus s; saving := saving s;
     resets := resets s ++ [(delay, clock s + delay)]; clock := clock s |}.

Definition post (q : Save) (s : SettingsPage) : SettingsPage :=
  {| apiKey := apiKey s; dbConnection := dbConnection s;
     saveStatus := saveStatus s; saving := saving s ++ [q];
     resets := resets s; clock := clock s |}.

(** Up to [await fetch (...)]. *)
Definition handleSave (which : Field) (s : SettingsPage) : SettingsPage :=
  let s := setSaveStatus {| type := loading; message := None;
                            field := Some which |} s in
  let fieldValue := value (getField which s) in
  if negb (nonempty (trim fieldValue)) then
    let s := setSaveStatus {| type := error;
                              message := Some (lit "Please enter a value first");
                              field := Some which |} s in
    resetLater 3000 s
  else
    post {| save_field := which; save_body := value (getField which s) |} s.

Definition response_ok (code : N) : bool := (200 <=? code) && (code <=? 299).

(** [a || b] on strings that may be missing. *)
Definition orElse (a : option ustring) (b : ustring) : ustring :=
  match a with
  | Some m => if nonempty m then m else b
  | None => b
  end.

(** The status the rest of the [try] block, or the [catch] block, sets. *)
Definition saved (which : Field) (o : FetchOutcome) : Status :=
  match o with
  | Responds code (inr data) =>
      if response_ok code
         && bool_decide (status data = Some (lit "success"))
      then {| type := success; message := reply_message data;
              field := Some which |}
      else {| type := error;
              message := Some (orElse (reply_message data)
                                 (lit "Failed to save configuration"));
              field := Some which |}
  | _ =>
      {| type := error;
         message := Some (lit "Network error: Unable to connect to the server");
         field := Some which |}
  end.

(** The rest of [handleSave], when the oldest save in flight settles. *)
Definition resume (o : FetchOutcome) (s : SettingsPage) : option SettingsPage :=
  match saving s with
  | [] => None
  | q :: rest =>
      let s := {| apiKey := apiKey s; dbConnection := dbConnection s;
                  saveStatus := saved (save_field q) o; saving := rest;
                  resets := resets s; clock := clock s |} in
      Some (resetLater 3000 s)
  end.

(** The callback of the [i]-th pending timeout. *)
Definition resetFires (i : nat) (s : SettingsPage) : option SettingsPage :=
  '(_, due) ← resets s !! i;
  if due <=? clock s then
    Some {| apiKey := apiKey s; dbConnection := dbConnection s;
            saveStatus := {| type := idle; message := None; field := None |};
            saving := saving s; resets := delete i (resets s);
            clock := clock s |}
  else None.

(** [saveStatus.message || 'Saving...'], the text of the status line. *)
Definition statusText (st : Status) : ustring :=
  orElse (message st) (lit "Saving...").

(** ** The page over time *)

Inductive Event :=
  | Changes (which : Field) (edit : ustring → ustring)
  | Toggles (which : Field)
  | ClicksSave (which : Field)
  | Settles (o : FetchOutcome)
  | ResetFires (i : nat)
  | Elapses (dt : N).

(** Both save buttons are [disabled] while [saveStatus.type] is
    ['loading']. *)
Definition step (e : Event) (s : SettingsPage) : option SettingsPage :=
  match e with
  | Changes which edit => Some (onChange which edit s)
  | Toggles which => Some (toggleVisibility which s)
  | ClicksSave which =>
      match type (saveStatus s) with
      | loading => None
      | _ => Some (handleSave which s)
      end
  | Settles o => resume o s
  | ResetFires i => resetFires i s
  | Elapses dt =>
      Some {| apiKey := apiKey s; dbConnection := dbConnection s;
              saveStatus := saveStatus s; saving := saving s;
              resets := resets s; clock := clock s + dt |}
  end.

Inductive reachable : SettingsPage → Prop :=
  | reachable_initial now : reachable (initial now)
  | reachable_step e s s' : reachable s → step e s = Some s' → reachable s'.

End Settings.

(** * The tables page ([src/app/pages/tables.tsx]): [handleSort] and
    [fetchData]; the listing itself compares with [localeCompare] and
    subtracts floating-point numbers and is left out. *)
Module Tables.
Import Chat.

Section Rows.
(** The four kinds of rows; the page only stores and lists them. *)
Context {VehicleCard DamageDetection Repair Quote : Type}.

Inductive SortDirection := asc | desc.

(** The [data] member of a reply; each table may be missing. *)
Record Data := {
  vehicle_cards : option (list VehicleCard);
  damage_detections : option (list DamageDetection);
  repairs : option (list Repair);
  quotes : option (list Quote)
}.

Record ApiResponse := {
  status : ustring;
  message : option ustring;
  data : Data
}.

Inductive Thrown :=
  | ErrorObject (msg : ustring)
  | OtherValue.

Inductive FetchOutcome :=
  | Rejects (err : Thrown)
  | Responds (code : N) (body : ustring + ApiResponse).

(** The page: its [useState] cells ([tableType] and [searchQuery] only
    select what is listed) and the number of fetches in flight. *)
Record TablesPage := {
  sortColumn : ustring;
  sortDirection : option SortDirection;
  loading : bool;
  error : option ustring;
  vehicleData : list VehicleCard;
  damageData : list DamageDetection;
  repairData : list Repair;
  quoteData : list Quote;
  fetching : nat
}.

(** ** [handleSort] *)

Definition handleSort (column : ustring) (s : TablesPage) : TablesPage :=
  if decide (sortColumn s = column) then
    {| sortColumn := sortColumn s;
       sortDirection := match sortDirection s with
                        | Some asc => Some desc
                        | Some desc => None
                        | None => Some asc
                        end;
       loading := loading s; error := error s;
       vehicleData := vehicleData s; damageData := damageData s;
       repairData := repairData s; quoteData := quoteData s;
       fetching := fetching s |}
  else
    {| sortColumn := column; sortDirection := Some asc;
       loading := loading s; error := error s;
       vehicleData := vehicleData s; damageData := damageData s;
       repairData := repairData s; quoteData := quoteData s;
       fetching := fetching s |}.

Inductive Chevron := ChevronUp | ChevronDown.

(** The mark [TableHeader] puts beside the label of [column]. *)
Definition sortMark (column : ustring) (s : TablesPage) : option Chevron :=
  if decide (sortColumn s = column) then
    Some match sortDirection s with
         | Some asc => ChevronUp
         | _ => ChevronDown
         end
  else None.

(** ** [fetchData] *)

(** Up to [await fetch (...)]. *)
Definition fetchData (s : TablesPage) : TablesPage :=
  {| sortColumn := sortColumn s; sortDirection := sortDirection s;
     loading := true; error := None;
     vehicleData := vehicleData s; damageData := damageData s;
     repairData := repairData s; quoteData := quoteData s;
     fetching := S (fetching s) |}.

Definition response_ok (code : N) : bool := (200 <=? code) && (code <=? 299).

(** [a || b] on strings that may be missing. *)
Definition orElse (a : option ustring) (b : ustring) : ustring :=
  match a with
  | Some m => if nonempty m then m else b
  | None => b
  end.

(** The [try] block after [await fetch (...)]: the tables to store, or what
    the [catch] clause receives. *)
Definition attempt (o : FetchOutcome) : Thrown + Data :=
  match o with
  | Rejects err => inl err
  | Responds code body =>
      if response_ok code then
        match body with
        | inr result =>
            if bool_decide (status result = lit "success")
            then inr (data result)
            else inl (ErrorObject
                        (orElse (message result) (lit "Failed to fetch data")))
        | inl msg => inl (ErrorObject msg)
        end
      else inl (ErrorObject (lit ("HTTP error! status: " +:+ pretty code)))
  end.

(** The rest of [fetchData], when a fetch settles. *)
Definition resume (o : FetchOutcome) (s : TablesPage) : option TablesPage :=
  match fetching s with
  | O => None
  | S n =>
      Some
        match attempt o with
        | inr d =>
            {| sortColumn := sortColumn s; sortDirection := sortDirection s;
               loading := false; error := error s;
               vehicleData := default [] (vehicle_cards d);
               damageData := default [] (damage_detections d);
               repairData := default [] (repairs d);
               quoteData := default [] (quotes d);
               fetching := n |}
        | inl err =>
            {| sortColumn := sortColumn s; sortDirection := sortDirection s;
               loading := false;
               error := Some match err with
                             | ErrorObject msg => msg
                             | OtherValue => lit "An error occurred"
                             end;
               vehicleData := vehicleData s; damageData := damageData s;
               repairData := repairData s; quoteData := quoteData s;
               fetching := n |}
        end
  end.

(** ** The page over time *)

Inductive Event :=
  | ClicksHeader (column : ustring)
  | ClicksRefresh
  | Settles (o : FetchOutcome).

(** The Refresh button is [disabled] while [loading]. *)
Definition step (e : Event) (s : TablesPage) : option TablesPage :=
  match e with
  | ClicksHeader column => Some (handleSort column s)
  | ClicksRefresh => if loading s then None else Some (fetchData s)
  | Settles o => resume o s
  end.

(** The first render and the effect that fetches once. *)
Definition mount : TablesPage :=
  fetchData {| sortColumn := []; sortDirection := None; loading := false;
               error := None; vehicleData := []; damageData := [];
               repairData := []; quoteData := []; fetching := 0 |}.

Inductive reachable : TablesPage → Prop :=
  | reachable_mount : reachable mount
  | reachable_step e s s' : reachable s → step e s = Some s' → reachable s'.

End Rows.

Arguments Data : clear implicits.
Arguments ApiResponse : clear implicits.
Arguments FetchOutcome : clear implicits.
Arguments TablesPage : clear implicits.
Arguments Event : clear implicits.

End Tables.

(** * Proofs *)

Module DashboardFacts.
Import Dashboard.

(** ** Well-formed timer tables *)

Lemma wf_withView f s : wf s → wf (withView f s).
Proof. intros [H1 H2 H3 H4]; split; simpl; eauto. Qed.

Lemma wf_send r s : wf s → wf (send r s).
Proof.
  intros [H1 H2 H3 H4]; split; simpl; intros id.
  - eauto.
  - intros H. apply H2 in H. lia.
  - intros t H. apply H3 in H. lia.
  - intros r'. rewrite lookup_insert. case_decide; [intros _; subst; lia|].
    intros Hr; apply H4 in Hr; lia.
Qed.

Lemma wf_settled id s : wf s → wf (settled id s).
Proof.
  intros [H1 H2 H3 H4]; split; simpl; eauto.
  intros id' r. rewrite lookup_delete. case_decide; [done|]. eauto.
Qed.

Lemma wf_elapse dt s : wf s → wf (elapse dt s).
Proof. intros [H1 H2 H3 H4]; split; simpl; eauto. Qed.

Lemma wf_clearTimeout id s : wf s → wf (clearTimeout id s).
Proof.
  intros [H1 H2 H3 H4]; split; simpl; eauto.
  intros id' r. rewrite lookup_delete. case_decide; [done|]. eauto.
Qed.

Lemma wf_clearInterval id s : wf s → wf (clearInterval id s).
Proof.
  intros [H1 H2 H3 H4]; split; simpl; eauto.
  intros id' r. rewrite lookup_delete. case_decide; [done|]. eauto.
Qed.

Lemma wf_rearm id i s : intervals s !! id = Some i → wf s → wf (rearm id i s).
Proof.
  intros Hi [H1 H2 H3 H4]; split; simpl; eauto.
  intros id' r. rewrite lookup_insert. case_decide; [subst; eauto|]. eauto.
Qed.

Lemma wf_setRetryTimeoutRef r s : wf s → wf (setRetryTimeoutRef r s).
Proof. intros [H1 H2 H3 H4]; split; simpl; eauto. Qed.

Lemma wf_setTimeout k d s : wf s → wf (setTimeout k d s).2.
Proof.
  intros [H1 H2 H3 H4]; split; simpl; intros id.
  - eauto.
  - intros H. apply H2 in H. lia.
  - intros t. rewrite lookup_insert. case_decide; [intros _; subst; lia|].
    intros Hr; apply H3 in Hr; lia.
  - intros r H. apply H4 in H. lia.
Qed.

(** Once the interval [intervalRef] names is cleared, none is armed. *)
Lemma cleared_intervals s :
  wf s →
  match intervalRef s with
  | Some id => delete id (intervals s)
  | None => intervals s
  end = ∅.
Proof.
  intros [H1 _ _ _]. apply map_eq; intros id. rewrite lookup_empty.
  destruct (intervalRef s) as [old|] eqn:E.
  - rewrite lookup_delete. case_decide; [done|].
    destruct (intervals s !! id) eqn:L; [|done].
    apply H1 in L. congruence.
  - destruct (intervals s !! id) eqn:L; [|done].
    apply H1 in L. congruence.
Qed.

Lemma startPolling_intervals k s :
  wf s →
  intervals (startPolling k s)
  = {[ fresh s := {| iv_period := POLL_INTERVAL;
                     iv_due := clock s + POLL_INTERVAL;
                     iv_closure := k |} ]}.
Proof.
  intros W. pose proof (cleared_intervals s W) as E.
  unfold startPolling. destruct (intervalRef s); simpl in *; by rewrite E.
Qed.

Lemma wf_startPolling k s : wf s → wf (startPolling k s).
Proof.
  intros W. pose proof (startPolling_intervals k s W) as E.
  destruct W as [H1 H2 H3 H4].
  assert (R : intervalRef (startPolling k s) = Some (fresh s)
              ∧ fresh (startPolling k s) = Pos.succ (fresh s)
              ∧ timeouts (startPolling k s) = timeouts s
              ∧ requests (startPolling k s) = requests s).
  { unfold startPolling. by destruct (intervalRef s). }
  destruct R as (R1 & R2 & R3 & R4).
  split; rewrite ?E, ?R1, ?R2, ?R3, ?R4.
  - intros id i. rewrite lookup_singleton. case_decide; [congruence|done].
  - intros id [= <-]. lia.
  - intros id t H. apply H3 in H. lia.
  - intros id r H. apply H4 in H. lia.
Qed.

Lemma wf_fetchConfigStatus k m s : wf s → wf (fetchConfigStatus k m s).
Proof.
  intros W. unfold fetchConfigStatus.
  destruct m; apply wf_send; [by apply wf_withView|done].
Qed.

Lemma wf_effect k s : wf s → wf (effect k s).
Proof. intros W. by apply wf_startPolling, wf_fetchConfigStatus. Qed.

Lemma wf_cleanup s : wf s → wf (cleanup s).
Proof.
  intros W. unfold cleanup.
  assert (W' : wf match intervalRef s with
                  | Some id => clearInterval id s | None => s end).
  { destruct (intervalRef s); [by apply wf_clearInterval|done]. }
  destruct (retryTimeoutRef _); [by apply wf_clearTimeout|done].
Qed.

Lemma wf_commit n s : wf s → wf (commit n s).
Proof.
  intros W. unfold commit. case_decide; [done|].
  by apply wf_effect, wf_cleanup.
Qed.

Lemma wf_onFulfilled m d s : wf s → wf (onFulfilled m d s).
Proof.
  intros W. unfold onFulfilled.
  destruct m; repeat apply wf_withView; done.
Qed.

Lemma wf_onRejected k m err s : wf s → wf (onRejected k m err s).
Proof.
  intros W. unfold onRejected.
  assert (W' : wf (if m then setIsRefreshing false
                               (setError (Some (describe err)) s)
                   else setError (Some (describe err)) s)).
  { destruct m; repeat apply wf_withView; done. }
  destruct (k <? MAX_RETRIES).
  - apply (wf_setTimeout k (RETRY_DELAY * 2 ^ k)) in W'.
    destruct (setTimeout _ _ _) as [id s'] eqn:E. simpl in W'.
    by apply wf_setRetryTimeoutRef.
  - by repeat apply wf_withView.
Qed.

Lemma wf_handleVisibilityChange k h s :
  wf s → wf (handleVisibilityChange k h s).
Proof.
  intros W. unfold handleVisibilityChange. destruct h.
  - pose proof (cleared_intervals s W) as E.
    destruct (intervalRef s) as [id|] eqn:R; [|done].
    destruct W as [H1 H2 H3 H4]. split; simpl; eauto; try done.
    rewrite E. intros ??. by rewrite lookup_empty.
  - by apply wf_startPolling, wf_fetchConfigStatus.
Qed.

Lemma wf_handle e s s' : wf s → handle e s = Some s' → wf s'.
Proof.
  intros W. destruct e; simpl.
  - intros [= <-]. by apply wf_elapse.
  - destruct (timeouts s !! id) as [t|]; simpl; [|done].
    destruct (to_due t <=? clock s); [|done]. intros [= <-].
    unfold retryCallback. by apply wf_fetchConfigStatus, wf_withView, wf_clearTimeout.
  - destruct (intervals s !! id) as [i|] eqn:L; simpl; [|done].
    destruct (iv_due i <=? clock s); [|done]. intros [= <-].
    by apply wf_fetchConfigStatus, wf_rearm.
  - destruct (requests s !! id) as [r|]; simpl; [|done]. intros [= <-].
    unfold resume. destruct (attempt o).
    + by apply wf_onRejected, wf_settled.
    + by apply wf_onFulfilled, wf_settled.
  - intros [= <-]. by apply wf_handleVisibilityChange.
  - destruct (isRefreshing (view s)); [done|]. intros [= <-].
    unfold handleManualRefresh. by apply wf_fetchConfigStatus, wf_withView.
Qed.

Lemma wf_dispatch e s s' : wf s → dispatch e s = Some s' → wf s'.
Proof.
  intros W. unfold dispatch. destruct (handle e s) as [s1|] eqn:H; [|done].
  intros [= <-]. eapply wf_commit, wf_handle; eauto.
Qed.

Lemma wf_initial : wf initial.
Proof. split; simpl; intros ?; try done; intros ?; by rewrite lookup_empty. Qed.

Lemma wf_reachable s : reachable s → wf s.
Proof.
  induction 1 as [|e s s' _ IH D].
  - apply wf_effect, wf_initial.
  - by eapply wf_dispatch.
Qed.

(** ** Manual requests in flight *)

Lemma quiet_refl s : quiet s s.
Proof. done. Qed.

Lemma quiet_trans s1 s2 s3 : quiet s1 s2 → quiet s2 s3 → quiet s1 s3.
Proof. intros [? ?] [? ?]; split; congruence. Qed.


Lemma quiet_startPolling k s : quiet s (startPolling k s).
Proof. unfold startPolling. by destruct (intervalRef s). Qed.

Lemma quiet_cleanup s : quiet s (cleanup s).
Proof.
  unfold cleanup. destruct (intervalRef s); simpl;
    by destruct (retryTimeoutRef s).
Qed.










(** ** Requests keep their handle *)













Lemma reachable_run es s s' : reachable s → run es s = Some s' → reachable s'.
Proof.
  revert s. induction es as [|e es IH]; simpl; intros s R.
  - by intros [= <-].
  - destruct (dispatch e s) as [s1|] eqn:D; simpl; [|done].
    apply IH. by eapply reachable_step.
Qed.

(** ** What a settled request does *)

Lemma view_startPolling k s : view (startPolling k s) = view s.
Proof. unfold startPolling. by destruct (intervalRef s). Qed.

Lemma view_cleanup s : view (cleanup s) = view s.
Proof.
  unfold cleanup. destruct (intervalRef s); simpl;
    by destruct (retryTimeoutRef s).
Qed.

Lemma view_effect k s : view (effect k s) = view s.
Proof. unfold effect. by rewrite view_startPolling. Qed.

Lemma view_commit n s : view (commit n s) = view s.
Proof.
  unfold commit. case_decide; [done|].
  by rewrite view_effect, view_cleanup.
Qed.

(** A render that leaves [retryCount] alone runs no effect. *)
Lemma commit_same s s' :
  retryCount (view s') = retryCount (view s) →
  commit (retryCount (view s)) s' = s'.
Proof. intros E. unfold commit. by rewrite decide_True. Qed.

Lemma dispatch_settles id r o s :
  requests s !! id = Some r →
  dispatch (FetchSettles id o) s
  = Some (commit (retryCount (view s)) (resume r o (settled id s))).
Proof. intros L. unfold dispatch. simpl. by rewrite L. Qed.

Lemma fresh_unused s : wf s → timeouts s !! fresh s = None
                              ∧ requests s !! fresh s = None.
Proof.
  intros [_ _ H3 H4]. split.
  - destruct (timeouts s !! fresh s) eqn:L; [|done]. apply H3 in L. lia.
  - destruct (requests s !! fresh s) eqn:L; [|done]. apply H4 in L. lia.
Qed.

Lemma resume_rejected_retry r o err s :
  attempt o = inl err → req_closure r < MAX_RETRIES →
  resume r o s
  = setRetryTimeoutRef (Some (fresh s))
      (setTimeout (req_closure r) (RETRY_DELAY * 2 ^ req_closure r)
         (if req_manual r
          then setIsRefreshing false (setError (Some (describe err)) s)
          else setError (Some (describe err)) s)).2.
Proof.
  intros A K. unfold resume, onRejected. rewrite A.
  apply N.ltb_lt in K. rewrite K. by destruct (req_manual r).
Qed.

Lemma resume_rejected_exhausted r o err s :
  attempt o = inl err → MAX_RETRIES ≤ req_closure r →
  resume r o s
  = setConfigStatus None
      (setIsLoading false
         (if req_manual r
          then setIsRefreshing false (setError (Some (describe err)) s)
          else setError (Some (describe err)) s)).
Proof.
  intros A K. unfold resume, onRejected. rewrite A.
  apply N.ltb_ge in K. by rewrite K.
Qed.

(** A fetch that fails while the [retryCount] its callback captured is below
    [MAX_RETRIES] arms exactly one new timeout, due [RETRY_DELAY * 2 ^ k] ms
    later for that captured [k], and issues no request itself; the timeout
    cannot fire earlier, and when it fires [retryCount] grows by exactly one
    and its callback issues one automatic fetch, again with [k]. *)
Lemma failed_fetch_schedules_one_retry s id r o err :
  reachable s →
  requests s !! id = Some r →
  attempt o = inl err →
  req_closure r < MAX_RETRIES →
  let delay := RETRY_DELAY * 2 ^ req_closure r in
  ∃ s',
    dispatch (FetchSettles id o) s = Some s'
    ∧ timeouts s !! fresh s = None
    ∧ timeouts s' = <[fresh s := {| to_delay := delay;
                                    to_due := clock s + delay;
                                    to_closure := req_closure r |}]>
                      (timeouts s)
    ∧ retryTimeoutRef s' = Some (fresh s)
    ∧ requests s' = delete id (requests s)
    ∧ retryCount (view s') = retryCount (view s)
    ∧ (∀ dt, dt < delay →
         dispatch (TimeoutFires (fresh s)) (elapse dt s') = None)
    ∧ ∃ s'' s''',
        handle (TimeoutFires (fresh s)) (elapse delay s') = Some s''
        ∧ retryCount (view s'') = retryCount (view s) + 1
        ∧ timeouts s'' = timeouts s
        ∧ requests s''
          = <[fresh s' := {| req_closure := req_closure r;
                             req_manual := false |}]> (requests s')
        ∧ dispatch (TimeoutFires (fresh s)) (elapse delay s') = Some s'''
        ∧ retryCount (view s''') = retryCount (view s) + 1.
Proof.
  intros R L A K delay. apply wf_reachable in R.
  destruct (fresh_unused s R) as [Ft _].
  rewrite (dispatch_settles _ _ _ _ L).
  rewrite (resume_rejected_retry _ _ _ _ A K). fold delay.
  set (s1 := setRetryTimeoutRef _ _).
  assert (V : retryCount (view s1) = retryCount (view s))
    by (subst s1; by destruct (req_manual r)).
  rewrite (commit_same _ _ V).
  assert (T : timeouts s1 = <[fresh s := {| to_delay := delay;
                                            to_due := clock s + delay;
                                            to_closure := req_closure r |}]>
                              (timeouts s))
    by (subst s1; by destruct (req_manual r)).
  assert (C : clock s1 = clock s) by (subst s1; by destruct (req_manual r)).
  assert (Rt : retryTimeoutRef s1 = Some (fresh s)) by done.
  assert (Rq : requests s1 = delete id (requests s))
    by (subst s1; by destruct (req_manual r)).
  clearbody s1. exists s1. split_and!; try done.
  - intros dt Hdt. unfold dispatch. simpl. rewrite T, lookup_insert_eq. simpl.
    rewrite C. destruct (N.leb_spec (clock s + delay) (clock s + dt)); [lia|done].
  - unfold dispatch. simpl. rewrite T, lookup_insert_eq. simpl. rewrite C.
    rewrite (proj2 (N.leb_le _ _) (N.le_refl _)). simpl.
    eexists _, _. split_and!; [reflexivity| | | |reflexivity|].
    + simpl. by rewrite V.
    + simpl. by rewrite T, delete_insert_id.
    + done.
    + rewrite view_commit. simpl. by rewrite V.
Qed.

(** A fetch that reads the [retryCount] the state holds backs off by it. *)
Lemma current_failure_backs_off s id r o err :
  reachable s →
  requests s !! id = Some r →
  attempt o = inl err →
  req_closure r = retryCount (view s) →
  retryCount (view s) < MAX_RETRIES →
  ∃ s',
    dispatch (FetchSettles id o) s = Some s'
    ∧ timeouts s !! fresh s = None
    ∧ timeouts s'
      = <[fresh s := {| to_delay := RETRY_DELAY * 2 ^ retryCount (view s);
                        to_due := clock s
                                  + RETRY_DELAY * 2 ^ retryCount (view s);
                        to_closure := retryCount (view s) |}]> (timeouts s)
    ∧ retryCount (view s') = retryCount (view s).
Proof.
  intros R L A E K. rewrite <- E in K.
  destruct (failed_fetch_schedules_one_retry s id r o err R L A K)
    as (s' & D & F & T & _ & _ & V & _).
  rewrite E in T. exists s'. by split_and!.
Qed.

(** So does the request the effect issued when the first retry fired: it
    captured 1, and its failure arms a retry of 4000 ms. *)
Lemma current_failure_backs_off_example :
  let s := after first_retry_fires in
  reachable s
  ∧ retryCount (view s) = 1
  ∧ ∃ s', dispatch (FetchSettles 5 failure) s = Some s'
          ∧ timeouts s' = {[ 7%positive := {| to_delay := 4000; to_due := 6000;
                                              to_closure := 1 |} ]}.
Proof.
  intros s.
  assert (R : reachable s).
  { apply (reachable_run first_retry_fires mount); [apply reachable_mount|].
    vm_compute. reflexivity. }
  split_and!; [exact R|reflexivity|].
  destruct (current_failure_backs_off s 5
              {| req_closure := 1; req_manual := false |} failure
              (ErrorObject "Failed to fetch") R)
    as (s' & D & _ & T & _); [reflexivity..|by vm_compute|].
  exists s'. split; [exact D|]. rewrite T. by vm_compute.
Defined.

(** C1 fails on the code: a request reads the [retryCount] its
    [fetchConfigStatus] captured, not the one the state holds.  The first
    fetch fails and its retry fires: [retryCount] is 1 and two requests have
    left, one from the callback of the retry, which captured 0, and one from
    the effect.  The former fails: its retry is due after 2000 ms, where
    [RETRY_DELAY * 2 ^ retryCount] is 4000 ms. *)
Theorem C1_stale_failure_keeps_old_delay :
  ∃ s s',
    run first_retry_fires mount = Some s
    ∧ retryCount (view s) = 1
    ∧ requests s
      = {[ 4%positive := {| req_closure := 0; req_manual := false |};
           5%positive := {| req_closure := 1; req_manual := false |} ]}
    ∧ timeouts s = ∅
    ∧ dispatch (FetchSettles 4 failure) s = Some s'
    ∧ retryCount (view s') = 1
    ∧ timeouts s' = {[ 7%positive := {| to_delay := 2000; to_due := 4000;
                                        to_closure := 0 |} ]}
    ∧ RETRY_DELAY * 2 ^ retryCount (view s) = 4000.
Proof.
  eexists _, _. split; [vm_compute; reflexivity|].
  split_and!; by vm_compute.
Qed.

(** C3 as stated fails: after a success, three fetches in a row fail (the
    poll tick, its retry after 2000 ms, the next retry after 4000 ms) and the
    status of the last success is still held, [retryCount] is 2 and a third
    retry is pending, due 8000 ms later. *)
Lemma C3_three_failures_keep_status :
  ∃ s, run three_failures mount = Some s
       ∧ configStatus (view s) = Some valid_config
       ∧ configStatus (view s) ≠ None
       ∧ retryCount (view s) = 2
       ∧ retryCount (view s) ≠ MAX_RETRIES
       ∧ timeouts s = {[ 12%positive := {| to_delay := 8000; to_due := 19000;
                                           to_closure := 2 |} ]}.
Proof. eexists. split; [vm_compute; reflexivity|]. by vm_compute. Qed.

(** The fourth failure in a row, of the fetch that reads [retryCount = 3],
    is the one that drops the status. *)
Lemma four_failures_drop_status :
  ∃ s, run four_failures mount = Some s
       ∧ configStatus (view s) = None
       ∧ isLoading (view s) = false
       ∧ retryCount (view s) = 3
       ∧ timeouts s = ∅.
Proof. eexists. split; [vm_compute; reflexivity|]. by vm_compute. Qed.

(** The retry callback calls the [fetchConfigStatus] that armed it, which
    keeps reading the [retryCount] it captured: its requests retry with the
    old delay, and each retry adds one more to [retryCount], past
    [MAX_RETRIES]. *)
Lemma stale_retry_passes_the_bound :
  ∃ s, run stale_retry mount = Some s ∧ retryCount (view s) = 4.
Proof. eexists. split; [vm_compute; reflexivity|]. by vm_compute. Qed.

(** A fetch that fails while the [retryCount] its callback captured has
    reached [MAX_RETRIES] clears [configStatus], clears [isLoading], records
    the error, arms no timeout, leaves the poll timer as it is and leaves
    [retryCount] as it is. *)
Lemma exhausted_failure_clears_status s id r o err :
  requests s !! id = Some r →
  attempt o = inl err →
  MAX_RETRIES ≤ req_closure r →
  ∃ s',
    dispatch (FetchSettles id o) s = Some s'
    ∧ configStatus (view s') = None
    ∧ isLoading (view s') = false
    ∧ error (view s') = Some (describe err)
    ∧ timeouts s' = timeouts s
    ∧ retryTimeoutRef s' = retryTimeoutRef s
    ∧ intervals s' = intervals s
    ∧ intervalRef s' = intervalRef s
    ∧ requests s' = delete id (requests s)
    ∧ retryCount (view s') = retryCount (view s).
Proof.
  intros L A K. rewrite (dispatch_settles _ _ _ _ L).
  rewrite (resume_rejected_exhausted _ _ _ _ A K).
  eexists. split; [reflexivity|].
  rewrite commit_same by (by destruct (req_manual r)).
  by destruct (req_manual r).
Qed.

(** C3, amended: a fetch that reads the [retryCount] the state holds, and
    fails when that [retryCount] has reached [MAX_RETRIES], clears
    [configStatus], clears [isLoading], records the error, arms no timeout,
    leaves the poll timer as it is and leaves [retryCount] as it is. *)
Theorem C3_exhausted_failure_clears_status s id r o err :
  requests s !! id = Some r →
  attempt o = inl err →
  req_closure r = retryCount (view s) →
  MAX_RETRIES ≤ retryCount (view s) →
  ∃ s',
    dispatch (FetchSettles id o) s = Some s'
    ∧ configStatus (view s') = None
    ∧ isLoading (view s') = false
    ∧ error (view s') = Some (describe err)
    ∧ timeouts s' = timeouts s
    ∧ retryTimeoutRef s' = retryTimeoutRef s
    ∧ intervals s' = intervals s
    ∧ intervalRef s' = intervalRef s
    ∧ requests s' = delete id (requests s)
    ∧ retryCount (view s') = retryCount (view s).
Proof.
  intros L A E K. rewrite <- E in K.
  exact (exhausted_failure_clears_status s id r o err L A K).
Qed.

Lemma C3_exhausted_failure_clears_status_witness :
  let s := after (three_failures ++ [Elapse 8000; TimeoutFires 12]) in
  reachable s
  ∧ retryCount (view s) = 3
  ∧ configStatus (view s) = Some valid_config
  ∧ ∃ s', dispatch (FetchSettles 14 failure) s = Some s'
          ∧ configStatus (view s') = None
          ∧ isLoading (view s') = false.
Proof.
  intros s. split_and!.
  - apply (reachable_run (three_failures ++ [Elapse 8000; TimeoutFires 12])
             mount); [apply reachable_mount|]. vm_compute. reflexivity.
  - reflexivity.
  - reflexivity.
  - destruct (C3_exhausted_failure_clears_status s 14
                {| req_closure := 3; req_manual := false |} failure
                (ErrorObject "Failed to fetch"))
      as (s' & D & Hc & Hl & _).
    + reflexivity.
    + reflexivity.
    + reflexivity.
    + by vm_compute.
    + exists s'. split; [exact D|]. by split.
Defined.

(** A request issued by a callback of an earlier render is outside that
    statement: with [retryCount] at [MAX_RETRIES], the request the last
    retry's callback issued captured 2; when it fails the status is kept and
    a retry of 8000 ms is armed. *)
Lemma stale_failure_at_the_bound_keeps_status :
  ∃ s s',
    run (three_failures ++ [Elapse 8000; TimeoutFires 12]) mount = Some s
    ∧ retryCount (view s) = MAX_RETRIES
    ∧ requests s !! 13%positive
      = Some {| req_closure := 2; req_manual := false |}
    ∧ dispatch (FetchSettles 13 failure) s = Some s'
    ∧ configStatus (view s') = Some valid_config
    ∧ timeouts s' = {[ 16%positive := {| to_delay := 8000; to_due := 27000;
                                         to_closure := 2 |} ]}.
Proof.
  eexists _, _. split; [vm_compute; reflexivity|].
  split_and!; by vm_compute.
Qed.

(** C4: a request that settles with a 2xx response whose body parses stores
    the payload, the time, no error, [retryCount = 0] and
    [isLoading = false]; a manual one clears [isRefreshing], an automatic one
    leaves it. *)
Theorem C4_successful_fetch s id r status data :
  requests s !! id = Some r →
  200 ≤ status ≤ 299 →
  ∃ s',
    dispatch (FetchSettles id (Responds status (inr data))) s = Some s'
    ∧ configStatus (view s') = Some data
    ∧ lastUpdate (view s') = Some (clock s)
    ∧ error (view s') = None
    ∧ retryCount (view s') = 0
    ∧ isLoading (view s') = false
    ∧ isRefreshing (view s')
      = (if req_manual r then false else isRefreshing (view s)).
Proof.
  intros L [Hlo Hhi]. rewrite (dispatch_settles _ _ _ _ L).
  eexists. split; [reflexivity|]. rewrite view_commit.
  unfold resume, attempt, response_ok.
  apply N.leb_le in Hlo, Hhi. rewrite Hlo, Hhi. simpl.
  by destruct (req_manual r).
Qed.

Lemma C4_successful_fetch_witness :
  ∃ s', dispatch (FetchSettles 1 success) mount = Some s'
        ∧ configStatus (view s') = Some valid_config
        ∧ retryCount (view s') = 0.
Proof.
  destruct (C4_successful_fetch mount 1
              {| req_closure := 0; req_manual := false |} 200 valid_config)
    as (s' & D & Hc & _ & _ & Hr & _).
  - reflexivity.
  - lia.
  - exists s'. split; [exact D|]. by split.
Defined.

(** ** Who cancels a pending retry *)

(** The effect's cleanup cancels the timeout [retryTimeoutRef] names. *)
Lemma cleanup_cancels_retry s id :
  retryTimeoutRef s = Some id → timeouts (cleanup s) !! id = None.
Proof.
  intros E. unfold cleanup.
  destruct (intervalRef s); simpl; rewrite E; simpl; apply lookup_delete_eq.
Qed.

(** A manual refresh that really changes [retryCount] reaches that cleanup:
    the retry [retryTimeoutRef] names is cancelled. *)
Lemma refresh_cancels_retry_when_count_changes s id :
  isRefreshing (view s) = false →
  retryCount (view s) ≠ 0 →
  retryTimeoutRef s = Some id →
  ∃ s', dispatch ClickRefresh s = Some s' ∧ timeouts s' !! id = None.
Proof.
  intros Hr Hk E. unfold dispatch. simpl. rewrite Hr. simpl.
  eexists. split; [reflexivity|].
  unfold commit. rewrite decide_False by (simpl; congruence).
  set (s1 := handleManualRefresh s).
  assert (E1 : retryTimeoutRef s1 = Some id) by done.
  pose proof (cleanup_cancels_retry s1 id E1) as C.
  unfold effect, startPolling. simpl.
  by destruct (intervalRef (cleanup s1)).
Qed.

(** C2 fails on the code: the hidden branch of [handleVisibilityChange]
    clears the poll timer only.  After the first fetch failed and the tab was
    hidden, the retry is still pending; 2000 ms later it fires, [retryCount]
    becomes 1, two fetches leave and a poll timer is armed again, all while
    the tab is hidden. *)
Theorem C2_hidden_leaves_retry_pending :
  (∀ k s, timeouts (handleVisibilityChange k true s) = timeouts s
          ∧ retryTimeoutRef (handleVisibilityChange k true s)
            = retryTimeoutRef s)
  ∧ ∃ s1 s2,
      run hidden_mid_retry mount = Some s1
      ∧ intervals s1 = ∅
      ∧ requests s1 = ∅
      ∧ timeouts s1 = {[ 3%positive := {| to_delay := 2000; to_due := 2000;
                                          to_closure := 0 |} ]}
      ∧ run [Elapse 2000; TimeoutFires 3] s1 = Some s2
      ∧ retryCount (view s2) = 1
      ∧ size (requests s2) = 2%nat
      ∧ size (intervals s2) = 1%nat.
Proof.
  split.
  - intros k s. unfold handleVisibilityChange. by destruct (intervalRef s).
  - eexists _, _. split; [vm_compute; reflexivity|].
    split_and!; by vm_compute.
Qed.

(** C5 fails on the code: [handleManualRefresh] cancels nothing itself, and
    with [retryCount] already 0 no cleanup follows.  The first fetch fails,
    the user refreshes while the retry waits, the manual fetch succeeds; the
    retry is still pending, and when it fires [retryCount] becomes 1 after a
    success and two more fetches leave. *)
Theorem C5_refresh_leaves_retry_pending :
  (∀ s, timeouts (handleManualRefresh s) = timeouts s)
  ∧ ∃ s1 s2,
      run refresh_mid_retry mount = Some s1
      ∧ error (view s1) = None
      ∧ retryCount (view s1) = 0
      ∧ requests s1 = ∅
      ∧ timeouts s1 = {[ 3%positive := {| to_delay := 2000; to_due := 2000;
                                          to_closure := 0 |} ]}
      ∧ run [Elapse 2000; TimeoutFires 3] s1 = Some s2
      ∧ retryCount (view s2) = 1
      ∧ size (requests s2) = 2%nat.
Proof.
  split; [done|].
  eexists _, _. split; [vm_compute; reflexivity|].
  split_and!; by vm_compute.
Qed.

(** ** The derived presentation *)

(** C6 as stated fails: with both flags set and the validation refused the
    colour is the partially-configured one, where the five-way branch of the
    specification gives the unconfigured one. *)
Lemma C6_both_flags_invalid_is_yellow :
  let v := {| configStatus := Some rejected_config; isLoading := false;
              lastUpdate := Some 0; isRefreshing := false; retryCount := 0;
              error := None |} in
  getStatusColor v = "text-yellow-400"
  ∧ presentation_spec v = "text-red-400"
  ∧ getStatusColor v ≠ presentation_spec v.
Proof. by vm_compute. Qed.

(** C6, amended: [getStatusColor] is a five-way branch: a non-empty [error]
    gives the error colour; else no [configStatus] gives the disconnected
    one; else a valid configuration the healthy one; else at least one flag
    set the partially-configured one; else the error colour. *)
Theorem C6_status_colour_branches v :
  (truthy (error v) = true → getStatusColor v = "text-red-400")
  ∧ (truthy (error v) = false → configStatus v = None →
       getStatusColor v = "text-white/30")
  ∧ (∀ c, truthy (error v) = false → configStatus v = Some c →
       is_valid (validation c) = true →
       getStatusColor v = "text-green-400")
  ∧ (∀ c, truthy (error v) = false → configStatus v = Some c →
       is_valid (validation c) = false →
       gemini_api_key_set c = true ∨ db_url_set c = true →
       getStatusColor v = "text-yellow-400")
  ∧ (∀ c, truthy (error v) = false → configStatus v = Some c →
       is_valid (validation c) = false →
       gemini_api_key_set c = false → db_url_set c = false →
       getStatusColor v = "text-red-400").
Proof.
  unfold getStatusColor. split_and!.
  - by intros ->.
  - by intros -> ->.
  - by intros c -> -> ->.
  - intros c -> -> -> [-> | ->]; [done|]. by rewrite orb_true_r.
  - by intros c -> -> -> -> ->.
Qed.

Lemma C6_status_colour_branches_witness :
  getStatusColor {| configStatus := Some rejected_config; isLoading := false;
                    lastUpdate := None; isRefreshing := false;
                    retryCount := 0; error := None |}
  = "text-yellow-400".
Proof.
  eapply (C6_status_colour_branches
            {| configStatus := Some rejected_config; isLoading := false;
               lastUpdate := None; isRefreshing := false;
               retryCount := 0; error := None |}).
  - reflexivity.
  - reflexivity.
  - reflexivity.
  - left. reflexivity.
Defined.

(** C8 as stated fails: after a success the colour is the healthy one; the
    poll tick that follows fails with [retryCount = 0], and the colour is the
    error one and the icon changes too, while a retry is pending. *)
Lemma C8_first_failure_is_visible :
  ∃ s0 s1,
    run [FetchSettles 1 success; Elapse 5000; IntervalTicks 2] mount = Some s0
    ∧ dispatch (FetchSettles 3 failure) s0 = Some s1
    ∧ getStatusColor (view s0) = "text-green-400"
    ∧ getStatusIcon (view s0) = Wifi
    ∧ getStatusColor (view s1) = "text-red-400"
    ∧ getStatusIcon (view s1) = WifiOff
    ∧ getStatusColor (view s1) ≠ getStatusColor (view s0)
    ∧ size (timeouts s1) = 1%nat.
Proof.
  eexists _, _. split; [vm_compute; reflexivity|].
  split; [vm_compute; reflexivity|]. by vm_compute.
Qed.

(** A fetch that fails while the [retryCount] its callback captured is below
    [MAX_RETRIES] leaves [configStatus], [lastUpdate] and [isLoading] as
    they were, but stores the error message, so the colour is the error one
    as soon as the message is not empty. *)
Lemma transient_failure_keeps_status_shows_error s id r o err :
  requests s !! id = Some r →
  attempt o = inl err →
  req_closure r < MAX_RETRIES →
  ∃ s',
    dispatch (FetchSettles id o) s = Some s'
    ∧ configStatus (view s') = configStatus (view s)
    ∧ lastUpdate (view s') = lastUpdate (view s)
    ∧ isLoading (view s') = isLoading (view s)
    ∧ error (view s') = Some (describe err)
    ∧ (describe err ≠ "" → getStatusColor (view s') = "text-red-400").
Proof.
  intros L A K. rewrite (dispatch_settles _ _ _ _ L).
  rewrite (resume_rejected_retry _ _ _ _ A K).
  eexists. split; [reflexivity|]. rewrite view_commit.
  assert (E : error (view (setRetryTimeoutRef (Some (fresh (settled id s)))
                (setTimeout (req_closure r) (RETRY_DELAY * 2 ^ req_closure r)
                   (if req_manual r
                    then setIsRefreshing false
                           (setError (Some (describe err)) (settled id s))
                    else setError (Some (describe err)) (settled id s))).2))
              = Some (describe err))
    by (by destruct (req_manual r)).
  split_and!; try (by destruct (req_manual r)).
  intros Hne. unfold getStatusColor. rewrite E. simpl.
  destruct (String.eqb_spec (describe err) ""); done.
Qed.

(** C8, amended: a fetch that reads the [retryCount] the state holds, and
    fails while that [retryCount] is below [MAX_RETRIES], leaves
    [configStatus], [lastUpdate] and [isLoading] as they were, but stores the
    error message, so the colour is the error one as soon as the message is
    not empty. *)
Theorem C8_transient_failure_keeps_status_shows_error s id r o err :
  requests s !! id = Some r →
  attempt o = inl err →
  req_closure r = retryCount (view s) →
  retryCount (view s) < MAX_RETRIES →
  ∃ s',
    dispatch (FetchSettles id o) s = Some s'
    ∧ configStatus (view s') = configStatus (view s)
    ∧ lastUpdate (view s') = lastUpdate (view s)
    ∧ isLoading (view s') = isLoading (view s)
    ∧ error (view s') = Some (describe err)
    ∧ (describe err ≠ "" → getStatusColor (view s') = "text-red-400").
Proof.
  intros L A E K. rewrite <- E in K.
  exact (transient_failure_keeps_status_shows_error s id r o err L A K).
Qed.

Lemma C8_transient_failure_keeps_status_shows_error_witness :
  let s := after [FetchSettles 1 success; Elapse 5000; IntervalTicks 2] in
  reachable s
  ∧ retryCount (view s) = 0
  ∧ ∃ s', dispatch (FetchSettles 3 failure) s = Some s'
          ∧ configStatus (view s') = Some valid_config
          ∧ error (view s') = Some "Failed to fetch"
          ∧ getStatusColor (view s') = "text-red-400".
Proof.
  intros s. split_and!.
  - apply (reachable_run [FetchSettles 1 success; Elapse 5000; IntervalTicks 2]
             mount); [apply reachable_mount|]. vm_compute. reflexivity.
  - reflexivity.
  - destruct (C8_transient_failure_keeps_status_shows_error s 3
                {| req_closure := 0; req_manual := false |} failure
                (ErrorObject "Failed to fetch"))
      as (s' & D & Hc & _ & _ & He & Hcol).
    + reflexivity.
    + reflexivity.
    + reflexivity.
    + reflexivity.
    + exists s'. split_and!; [exact D| | exact He |].
      * rewrite Hc. reflexivity.
      * apply Hcol. discriminate.
Defined.

(** A request issued by a callback of an earlier render is outside that
    statement: a click on Refresh sets [retryCount] to 0 while a request that
    captured 3 is in flight; when that request fails the status is dropped. *)
Lemma stale_failure_under_the_bound_drops_status :
  ∃ s s',
    run (three_failures ++ [Elapse 8000; TimeoutFires 12; ClickRefresh]) mount
    = Some s
    ∧ retryCount (view s) = 0
    ∧ configStatus (view s) = Some valid_config
    ∧ requests s !! 14%positive
      = Some {| req_closure := 3; req_manual := false |}
    ∧ dispatch (FetchSettles 14 failure) s = Some s'
    ∧ retryCount (view s') = 0
    ∧ configStatus (view s') = None.
Proof.
  eexists _, _. split; [vm_compute; reflexivity|].
  split_and!; by vm_compute.
Qed.

(** ** Manual refresh *)



(** ** The poll timer *)

Lemma intervals_at_most_one s : wf s → (size (intervals s) ≤ 1)%nat.
Proof.
  intros W. pose proof (cleared_intervals s W) as E.
  destruct (intervalRef s) as [old|].
  - pose proof (map_size_delete old (intervals s)) as Sz.
    rewrite E, map_size_empty in Sz.
    destruct (intervals s !! old); cbv [id] in Sz; lia.
  - rewrite E, map_size_empty. lia.
Qed.

(** C9: in every reachable state at most one poll timer is armed, and
    [startPolling] called there clears the timer [intervalRef] names before
    it arms the new one, which is then the only one. *)
Theorem C9_at_most_one_poll_timer s :
  reachable s →
  (size (intervals s) ≤ 1)%nat
  ∧ ∀ k,
      (∀ id, intervalRef s = Some id →
             intervals (startPolling k s) !! id = None)
      ∧ intervals (startPolling k s)
        = {[ fresh s := {| iv_period := POLL_INTERVAL;
                           iv_due := clock s + POLL_INTERVAL;
                           iv_closure := k |} ]}
      ∧ intervalRef (startPolling k s) = Some (fresh s)
      ∧ size (intervals (startPolling k s)) = 1%nat.
Proof.
  intros R. apply wf_reachable in R. split; [by apply intervals_at_most_one|].
  intros k. pose proof (startPolling_intervals k s R) as E.
  split_and!.
  - intros id Hid. rewrite E. apply lookup_singleton_ne.
    destruct R as [_ H2 _ _]. apply H2 in Hid. lia.
  - done.
  - unfold startPolling. by destruct (intervalRef s).
  - rewrite E. apply map_size_singleton.
Qed.

Lemma C9_at_most_one_poll_timer_witness :
  (size (intervals mount) ≤ 1)%nat
  ∧ size (intervals (startPolling 0 mount)) = 1%nat.
Proof.
  destruct (C9_at_most_one_poll_timer mount) as [H1 H2].
  - apply reachable_mount.
  - split; [exact H1|]. apply (H2 0).
Defined.

End DashboardFacts.

Module ChatFacts.
Import Chat.

Lemma trimStart_blank u : blank u → trimStart u = [].
Proof. induction 1 as [|c u Hc _ IH]; simpl; [done|]. by rewrite Hc. Qed.

Lemma trimStart_head c u v : trimStart u = c :: v → isWhiteSpace c = false.
Proof.
  induction u as [|d u IH]; simpl; [done|].
  destruct (isWhiteSpace d) eqn:Hd; [done|]. by intros [= <- _].
Qed.

Lemma trimStart_nil u : trimStart u = [] → blank u.
Proof.
  induction u as [|c u IH]; simpl; [constructor|].
  destruct (isWhiteSpace c) eqn:Hc; [|done].
  intros E. constructor; [done | by apply IH].
Qed.

(** [trim] leaves nothing exactly of the strings that are empty or made of
    white space only. *)
Lemma trim_nil u : trim u = [] ↔ blank u.
Proof.
  unfold trim, trimEnd. split.
  - intros E. apply (f_equal reverse) in E.
    rewrite reverse_involutive, reverse_nil in E.
    apply trimStart_nil in E. unfold blank in E.
    rewrite Forall_reverse in E.
    destruct (trimStart u) as [|c v] eqn:T; [by apply trimStart_nil|].
    apply trimStart_head in T. apply Forall_cons in E as [E _]. congruence.
  - intros B. by rewrite (trimStart_blank u B).
Qed.

(** C10: with an input that is empty or white space only, or while a query
    is in flight, [handleSendMessage] returns at once: the page is as it
    was, so no message is added and no query is posted. *)
Theorem C10_send_guard s :
  blank (input s) ∨ isLoading s = true →
  handleSendMessage s = s
  ∧ messages (handleSendMessage s) = messages s
  ∧ posted (handleSendMessage s) = posted s.
Proof.
  intros G.
  assert (E : handleSendMessage s = s).
  { unfold handleSendMessage. destruct G as [B | L].
    - apply trim_nil in B. by rewrite B.
    - rewrite L. by rewrite orb_true_r. }
  by rewrite E.
Qed.

Lemma C10_send_guard_witness :
  let s := {| messages := []; input := lit "  "; isLoading := false;
              posted := []; clock := 7 |} in
  handleSendMessage s = s.
Proof.
  intros s. apply (C10_send_guard s). left. by repeat constructor.
Defined.

(** Otherwise the message is added and the question posted. *)
Lemma send_accepted s :
  ¬ blank (input s) → isLoading s = false →
  messages (handleSendMessage s)
  = messages s ++ [ {| id := lit (pretty (clock s)); text := input s;
                       sender := user; timestamp := clock s;
                       hasTable := None; error := None; metadata := None |} ]
  ∧ posted (handleSendMessage s) = posted s ++ [input s]
  ∧ input (handleSendMessage s) = []
  ∧ isLoading (handleSendMessage s) = true.
Proof.
  intros B L. unfold handleSendMessage. rewrite L.
  destruct (trim (input s)) eqn:T; [|done].
  destruct B. by apply trim_nil.
Qed.

(** When the query settles one reply is added and the input is enabled
    again, whatever the outcome. *)
Lemma resume_appends_reply o s s' :
  resume o s = Some s' →
  messages s' = messages s ++ [reply (clock s) o] ∧ isLoading s' = false.
Proof.
  unfold resume. destruct (posted s); [done|]. by intros [= <-].
Qed.

End ChatFacts.

Module DashboardMore.
Import Dashboard DashboardFacts.

Lemma pretty_Z_of_N (n : N) : pretty (Z.of_N n) = pretty n.
Proof. by destruct n. Qed.

(** X1: the label under "Last updated" counts whole seconds below one
    minute, whole minutes (1 to 59) below one hour and whole hours from
    then on; the minutes and hours, floored twice or three times in the
    code, are the elapsed milliseconds divided once by 60000 or 3600000. *)
Theorem time_since_update_units now v t :
  lastUpdate v = Some t →
  t ≤ now →
  let e := now - t in
  (e < 60000 → getTimeSinceUpdate now v = pretty (e / 1000) +:+ "s ago")
  ∧ (60000 ≤ e < 3600000 →
       getTimeSinceUpdate now v = pretty (e / 60000) +:+ "m ago"
       ∧ 1 ≤ e / 60000 < 60)
  ∧ (3600000 ≤ e →
       getTimeSinceUpdate now v = pretty (e / 3600000) +:+ "h ago"
       ∧ 1 ≤ e / 3600000).
Proof.
  intros L Hle e. unfold getTimeSinceUpdate. rewrite L.
  replace (Z.of_N now - Z.of_N t)%Z with (Z.of_N e) by (subst e; lia).
  assert (S1 : (Z.of_N e `div` 1000)%Z = Z.of_N (e / 1000))
    by (by rewrite N2Z.inj_div).
  assert (S2 : ((Z.of_N e `div` 1000) `div` 60)%Z = Z.of_N (e / 60000)).
  { rewrite Z.div_div by lia. by rewrite N2Z.inj_div. }
  assert (S3 : (((Z.of_N e `div` 1000) `div` 60) `div` 60)%Z
               = Z.of_N (e / 3600000)).
  { rewrite !Z.div_div by lia. by rewrite N2Z.inj_div. }
  cbv zeta. rewrite S3, S2, S1, !pretty_Z_of_N. clear S1 S2 S3.
  clearbody e.
  pose proof (N.div_mod e 1000 ltac:(lia)) as D1.
  pose proof (N.mod_lt e 1000 ltac:(lia)) as M1.
  pose proof (N.div_mod e 60000 ltac:(lia)) as D2.
  pose proof (N.mod_lt e 60000 ltac:(lia)) as M2.
  pose proof (N.div_mod e 3600000 ltac:(lia)) as D3.
  pose proof (N.mod_lt e 3600000 ltac:(lia)) as M3.
  set (q1 := e `div` 1000) in *. set (r1 := e `mod` 1000) in *.
  set (q2 := e `div` 60000) in *. set (r2 := e `mod` 60000) in *.
  set (q3 := e `div` 3600000) in *. set (r3 := e `mod` 3600000) in *.
  clearbody q1 r1 q2 r2 q3 r3.
  split_and!.
  - intros H.
    destruct (Z.ltb_spec (Z.of_N q1) 60); [done|exfalso; lia].
  - intros [H1 H2].
    destruct (Z.ltb_spec (Z.of_N q1) 60); [exfalso; lia|].
    destruct (Z.ltb_spec (Z.of_N q2) 60); [|exfalso; lia].
    split; [done|lia].
  - intros H.
    destruct (Z.ltb_spec (Z.of_N q1) 60); [exfalso; lia|].
    destruct (Z.ltb_spec (Z.of_N q2) 60); [exfalso; lia|].
    split; [done|lia].
Qed.

(** ** What one event changes *)

Lemma clock_startPolling k s : clock (startPolling k s) = clock s.
Proof. unfold startPolling. by destruct (intervalRef s). Qed.

Lemma clock_cleanup s : clock (cleanup s) = clock s.
Proof.
  unfold cleanup. destruct (intervalRef s); simpl;
    by destruct (retryTimeoutRef s).
Qed.

Lemma clock_commit n s : clock (commit n s) = clock s.
Proof.
  unfold commit. case_decide; [done|]. unfold effect.
  by rewrite clock_startPolling, <- (clock_cleanup s).
Qed.

Lemma clock_resume r o s : clock (resume r o s) = clock s.
Proof.
  unfold resume, onFulfilled, onRejected.
  destruct (attempt o); destruct (req_manual r);
    try destruct (req_closure r <? MAX_RETRIES); done.
Qed.

(** Only the passing of time moves the clock. *)
Lemma clock_handle e s s' :
  handle e s = Some s' →
  clock s' = clock s + match e with Elapse dt => dt | _ => 0 end.
Proof.
  destruct e; simpl.
  - by intros [= <-].
  - destruct (timeouts s !! id) as [t|]; simpl; [|done].
    destruct (to_due t <=? clock s); [|done]. intros [= <-]. simpl. lia.
  - destruct (intervals s !! id) as [i|]; simpl; [|done].
    destruct (iv_due i <=? clock s); [|done]. intros [= <-]. simpl. lia.
  - destruct (requests s !! id) as [r|]; simpl; [|done]. intros [= <-].
    rewrite clock_resume. simpl. lia.
  - intros [= <-]. unfold handleVisibilityChange. destruct hidden.
    + destruct (intervalRef s); simpl; lia.
    + rewrite clock_startPolling. simpl. lia.
  - destruct (isRefreshing (view s)); [done|]. intros [= <-]. simpl. lia.
Qed.

Lemma view_resume_fulfilled r o data s :
  attempt o = inr data →
  view (resume r o s)
  = {| configStatus := Some data; isLoading := false;
       lastUpdate := Some (clock s);
       isRefreshing := if req_manual r then false else isRefreshing (view s);
       retryCount := 0; error := None |}.
Proof.
  intros A. unfold resume, onFulfilled. rewrite A. by destruct (req_manual r).
Qed.

Lemma view_resume_rejected r o err s :
  attempt o = inl err →
  view (resume r o s)
  = {| configStatus := if req_closure r <? MAX_RETRIES
                       then configStatus (view s) else None;
       isLoading := if req_closure r <? MAX_RETRIES
                    then isLoading (view s) else false;
       lastUpdate := lastUpdate (view s);
       isRefreshing := if req_manual r then false else isRefreshing (view s);
       retryCount := retryCount (view s);
       error := Some (describe err) |}.
Proof.
  intros A. unfold resume, onRejected. rewrite A.
  destruct (req_manual r); by destruct (req_closure r <? MAX_RETRIES).
Qed.

(** The view after the handler of an event that is not the settling of a
    request. *)
Lemma view_handle_other e s s' :
  handle e s = Some s' →
  (∀ id o, e ≠ FetchSettles id o) →
  view s'
  = match e with
    | TimeoutFires _ =>
        {| configStatus := configStatus (view s);
           isLoading := isLoading (view s);
           lastUpdate := lastUpdate (view s);
           isRefreshing := isRefreshing (view s);
           retryCount := retryCount (view s) + 1;
           error := error (view s) |}
    | ClickRefresh =>
        {| configStatus := configStatus (view s);
           isLoading := isLoading (view s);
           lastUpdate := lastUpdate (view s);
           isRefreshing := true;
           retryCount := 0;
           error := error (view s) |}
    | _ => view s
    end.
Proof.
  destruct e; simpl.
  - by intros [= <-].
  - destruct (timeouts s !! id) as [t|]; simpl; [|done].
    destruct (to_due t <=? clock s); [|done]. by intros [= <-].
  - destruct (intervals s !! id) as [i|]; simpl; [|done].
    destruct (iv_due i <=? clock s); [|done]. by intros [= <-].
  - intros _ H. by destruct (H id o).
  - intros [= <-] _. unfold handleVisibilityChange. destruct hidden.
    + by destruct (intervalRef s).
    + by rewrite view_startPolling.
  - destruct (isRefreshing (view s)); [done|]. by intros [= <-].
Qed.

Lemma dispatch_inv e s s' :
  dispatch e s = Some s' →
  ∃ s1, handle e s = Some s1 ∧ s' = commit (retryCount (view s)) s1.
Proof.
  unfold dispatch. destruct (handle e s) as [s1|]; [|done].
  intros [= <-]. by exists s1.
Qed.

(** The view and the clock after any event. *)
Lemma dispatch_cases e s s' :
  dispatch e s = Some s' →
  clock s' = clock s + match e with Elapse dt => dt | _ => 0 end
  ∧ (((∀ id o, e ≠ FetchSettles id o)
       ∧ (∃ s1, handle e s = Some s1 ∧ view s' = view s1))
     ∨ (∃ id o r, e = FetchSettles id o ∧ requests s !! id = Some r
                  ∧ view s' = view (resume r o (settled id s)))).
Proof.
  intros D. destruct (dispatch_inv _ _ _ D) as (s1 & H & ->).
  rewrite clock_commit, view_commit. split; [by apply clock_handle|].
  destruct e; try (left; split; [done|by exists s1]).
  right. simpl in H. destruct (requests s !! id) as [r|] eqn:L; [|done].
  injection H as <-. by exists id, o, r.
Qed.

(** ** The age shown is never negative *)


(** ** [isLoading] and [error] over time *)

(** X4: once [isLoading] is false no event sets it again. *)
Theorem loading_never_returns es s s' :
  isLoading (view s) = false → run es s = Some s' →
  isLoading (view s') = false.
Proof.
  revert s. induction es as [|e es IH]; simpl; intros s L.
  - by intros [= <-].
  - destruct (dispatch e s) as [s1|] eqn:D; simpl; [|done]. apply IH.
    destruct (dispatch_cases _ _ _ D) as [_ [[Hne (s2 & H & V)] | (id & o & r & -> & Lr & V)]].
    + rewrite V, (view_handle_other _ _ _ H Hne). by destruct e.
    + rewrite V. destruct (attempt o) as [err|data] eqn:A.
      * rewrite (view_resume_rejected _ _ _ _ A). simpl.
        by destruct (req_closure r <? MAX_RETRIES).
      * by rewrite (view_resume_fulfilled _ _ _ _ A).
Qed.

(** X5: an error on screen is cleared by nothing but a request that
    settles with a 2xx response whose body parses; that event also stores
    the payload. *)
Theorem only_success_clears_error e s s' m :
  error (view s) = Some m →
  dispatch e s = Some s' →
  error (view s') = None →
  ∃ id status data,
    e = FetchSettles id (Responds status (inr data))
    ∧ 200 ≤ status ≤ 299
    ∧ configStatus (view s') = Some data.
Proof.
  intros E D N.
  destruct (dispatch_cases _ _ _ D) as [_ [[Hne (s2 & H & V)] | (id & o & r & -> & Lr & V)]].
  - rewrite V, (view_handle_other _ _ _ H Hne) in N.
    destruct e; simpl in N; congruence.
  - rewrite V in N |- *. destruct (attempt o) as [err|data] eqn:A.
    + by rewrite (view_resume_rejected _ _ _ _ A) in N.
    + rewrite (view_resume_fulfilled _ _ _ _ A). simpl.
      destruct o as [err|status [msg|data']]; simpl in A; [done| |].
      * by destruct (response_ok status).
      * destruct (response_ok status) eqn:Ok; [|done].
        injection A as ->. exists id, status, data. split; [done|].
        unfold response_ok in Ok. apply andb_true_iff in Ok as [Lo Hi].
        apply N.leb_le in Lo, Hi. done.
Qed.

(** ** Icon and colour *)

(** X3: while loading or refreshing the icon is [Wifi] whatever else
    holds; otherwise it is [Wifi] exactly when the colour is the healthy
    one, [WifiOff] exactly when an error is shown or no status is held,
    and [AlertCircle] only with the partially-configured or the error
    colour. *)
Theorem icon_agrees_with_colour v :
  (isLoading v = true ∨ isRefreshing v = true → getStatusIcon v = Wifi)
  ∧ (isLoading v = false → isRefreshing v = false →
       (getStatusIcon v = Wifi ↔ getStatusColor v = "text-green-400")
       ∧ (getStatusIcon v = WifiOff
          ↔ truthy (error v) = true ∨ configStatus v = None)
       ∧ (getStatusIcon v = AlertCircle →
            getStatusColor v = "text-yellow-400"
            ∨ getStatusColor v = "text-red-400")).
Proof.
  unfold getStatusIcon, getStatusColor. split.
  - intros [-> | ->]; [done|]. by rewrite orb_true_r.
  - intros -> ->. simpl.
    destruct (truthy (error v)); [intuition congruence|].
    destruct (configStatus v) as [c|]; [|intuition congruence].
    destruct (is_valid (validation c)); [intuition congruence|].
    destruct (gemini_api_key_set c || db_url_set c); intuition congruence.
Qed.

(** ** The poll timer and the retry timers *)

Lemma intervals_cleanup s : wf s → intervals (cleanup s) = ∅.
Proof.
  intros W. pose proof (cleared_intervals s W) as E. unfold cleanup.
  destruct (intervalRef s); simpl in *; by destruct (retryTimeoutRef s).
Qed.

Lemma intervals_commit n s :
  wf s →
  intervals (commit n s)
  = if decide (retryCount (view s) = n) then intervals s
    else {[ Pos.succ (fresh s)
            := {| iv_period := POLL_INTERVAL;
                  iv_due := clock s + POLL_INTERVAL;
                  iv_closure := retryCount (view s) |} ]}.
Proof.
  intros W. unfold commit. case_decide; [done|]. unfold effect.
  rewrite startPolling_intervals
    by (by apply wf_fetchConfigStatus, wf_cleanup).
  simpl. rewrite clock_cleanup.
  assert (F : fresh (cleanup s) = fresh s).
  { unfold cleanup. destruct (intervalRef s); simpl;
      by destruct (retryTimeoutRef s). }
  by rewrite F.
Qed.

Lemma intervals_resume r o s : intervals (resume r o s) = intervals s.
Proof.
  unfold resume, onFulfilled, onRejected.
  destruct (attempt o); destruct (req_manual r);
    try destruct (req_closure r <? MAX_RETRIES); done.
Qed.

Lemma poll_current_dispatch e s s' :
  wf s → poll_current s → dispatch e s = Some s' → poll_current s'.
Proof.
  intros W P D. destruct (dispatch_inv _ _ _ D) as (s1 & H & ->).
  pose proof (wf_handle _ _ _ W H) as W1.
  intros id i. rewrite (intervals_commit _ _ W1), view_commit.
  case_decide as E.
  2:{ rewrite lookup_singleton. case_decide; [|done]. by intros [= <-]. }
  rewrite E. destruct e; simpl in H.
  - injection H as <-. apply P.
  - destruct (timeouts s !! id0) as [t|]; simpl in H; [|done].
    destruct (to_due t <=? clock s); [|done]. injection H as <-.
    simpl in E. lia.
  - destruct (intervals s !! id0) as [i0|] eqn:L; simpl in H; [|done].
    destruct (iv_due i0 <=? clock s); [|done]. injection H as <-. simpl.
    rewrite lookup_insert. case_decide; [|apply P].
    intros [= <-]. simpl. by apply (P id0).
  - destruct (requests s !! id0) as [r|]; simpl in H; [|done].
    injection H as <-. rewrite intervals_resume. apply P.
  - injection H as <-. unfold handleVisibilityChange. destruct hidden.
    + pose proof (cleared_intervals s W) as C.
      destruct (intervalRef s); simpl in *; [|apply P].
      rewrite C. by rewrite lookup_empty.
    + rewrite startPolling_intervals by (by apply wf_fetchConfigStatus).
      rewrite lookup_singleton. case_decide; [|done]. by intros [= <-].
  - destruct (isRefreshing (view s)); [done|]. injection H as <-.
    simpl. apply P.
Qed.

(** X6: in every reachable state an armed interval has the period
    [POLL_INTERVAL], is the one [intervalRef] names, and calls the
    [fetchConfigStatus] of the current [retryCount]. *)
Theorem poll_timer_is_current s id i :
  reachable s → intervals s !! id = Some i →
  iv_period i = POLL_INTERVAL
  ∧ iv_closure i = retryCount (view s)
  ∧ intervalRef s = Some id.
Proof.
  intros R L.
  assert (P : poll_current s).
  { clear L. induction R as [|e s s' R IH D].
    - intros id' i'. unfold mount, effect.
      rewrite startPolling_intervals
        by apply wf_fetchConfigStatus, wf_initial.
      rewrite lookup_singleton. case_decide; [|done]. by intros [= <-].
    - eapply poll_current_dispatch; eauto using wf_reachable. }
  destruct (P _ _ L). split_and!; try done.
  by eapply wf_interval_owned; [apply wf_reachable|].
Qed.

Lemma timeouts_startPolling k s : timeouts (startPolling k s) = timeouts s.
Proof. unfold startPolling. by destruct (intervalRef s). Qed.

Lemma retries_bounded_sub s s' :
  (∀ id t, timeouts s' !! id = Some t → timeouts s !! id = Some t) →
  retries_bounded s → retries_bounded s'.
Proof. intros Sub B id t L. apply (B id), Sub, L. Qed.

Lemma timeouts_cleanup_sub s id t :
  timeouts (cleanup s) !! id = Some t → timeouts s !! id = Some t.
Proof.
  unfold cleanup. destruct (intervalRef s); simpl;
    (destruct (retryTimeoutRef s); simpl; [|done]);
    rewrite lookup_delete; by case_decide.
Qed.

Lemma retries_bounded_commit n s :
  retries_bounded s → retries_bounded (commit n s).
Proof.
  apply retries_bounded_sub. intros id t. unfold commit.
  case_decide; [done|]. unfold effect. rewrite timeouts_startPolling.
  simpl. apply timeouts_cleanup_sub.
Qed.

Lemma retries_bounded_resume r o s :
  retries_bounded s → retries_bounded (resume r o s).
Proof.
  intros B id t. unfold resume, onFulfilled, onRejected.
  destruct (attempt o); destruct (req_manual r);
    try (destruct (req_closure r <? MAX_RETRIES) eqn:K); simpl;
    try apply B;
    (rewrite lookup_insert; case_decide; [|apply B]);
    intros [= <-]; simpl; by apply N.ltb_lt in K.
Qed.

Lemma retries_bounded_handle e s s' :
  retries_bounded s → handle e s = Some s' → retries_bounded s'.
Proof.
  intros B. destruct e; simpl.
  - intros [= <-]. apply B.
  - destruct (timeouts s !! id) as [t|]; simpl; [|done].
    destruct (to_due t <=? clock s); [|done]. intros [= <-].
    intros id' t'. simpl. rewrite lookup_delete. case_decide; [done|apply B].
  - destruct (intervals s !! id) as [i|]; simpl; [|done].
    destruct (iv_due i <=? clock s); [|done]. intros [= <-]. apply B.
  - destruct (requests s !! id) as [r|]; simpl; [|done]. intros [= <-].
    by apply retries_bounded_resume.
  - intros [= <-]. unfold handleVisibilityChange. destruct hidden.
    + by destruct (intervalRef s).
    + intros id t. rewrite timeouts_startPolling. apply B.
  - destruct (isRefreshing (view s)); [done|]. intros [= <-]. apply B.
Qed.

(** X7: in every reachable state each pending retry was armed below
    [MAX_RETRIES] with the delay [RETRY_DELAY * 2 ^ retryCount], which
    lies between 2000 and 8000 ms. *)
Theorem retry_delay_bounded s id t :
  reachable s → timeouts s !! id = Some t →
  to_closure t < MAX_RETRIES
  ∧ to_delay t = RETRY_DELAY * 2 ^ to_closure t
  ∧ RETRY_DELAY ≤ to_delay t ≤ 8000.
Proof.
  intros R L.
  assert (B : retries_bounded s).
  { clear L. induction R as [|e s s' R IH D].
    - intros id' t'. unfold mount, effect. rewrite timeouts_startPolling.
      simpl. by rewrite lookup_empty.
    - destruct (dispatch_inv _ _ _ D) as (s1 & H & ->).
      eapply retries_bounded_commit, retries_bounded_handle; eauto. }
  destruct (B _ _ L) as [K E]. split_and!; try done.
  - rewrite E. unfold RETRY_DELAY. pose proof (N.pow_nonzero 2 (to_closure t)).
    nia.
  - rewrite E. unfold MAX_RETRIES, RETRY_DELAY in *.
    assert (C : to_closure t = 0 ∨ to_closure t = 1 ∨ to_closure t = 2) by lia.
    destruct C as [-> | [-> | ->]]; by vm_compute.
Qed.

(** ** Visibility *)

Lemma dispatch_unchanged_count e s s1 :
  handle e s = Some s1 → retryCount (view s1) = retryCount (view s) →
  dispatch e s = Some s1.
Proof.
  intros H E. unfold dispatch. rewrite H. simpl. by rewrite commit_same.
Qed.

Lemma hidden_without_timer k s :
  intervalRef s = None → handleVisibilityChange k true s = s.
Proof. intros E. unfold handleVisibilityChange. by rewrite E. Qed.

(** X8: when the tab is hidden in a reachable state no interval stays
    armed and [intervalRef] is cleared, while the view, the requests in
    flight and the pending retries are left as they are; hiding again
    changes nothing. *)
Theorem hidden_pauses_polling_only s :
  reachable s →
  ∃ s',
    dispatch (VisibilityChange true) s = Some s'
    ∧ intervals s' = ∅
    ∧ intervalRef s' = None
    ∧ view s' = view s
    ∧ requests s' = requests s
    ∧ timeouts s' = timeouts s
    ∧ dispatch (VisibilityChange true) s' = Some s'.
Proof.
  intros R. apply wf_reachable in R.
  pose proof (cleared_intervals s R) as C.
  exists (handleVisibilityChange (retryCount (view s)) true s).
  assert (V : view (handleVisibilityChange (retryCount (view s)) true s)
              = view s).
  { unfold handleVisibilityChange. by destruct (intervalRef s). }
  assert (Rf : intervalRef (handleVisibilityChange (retryCount (view s))
                              true s) = None).
  { unfold handleVisibilityChange. by destruct (intervalRef s) eqn:E. }
  split_and!; try done.
  - apply dispatch_unchanged_count; [done|by rewrite V].
  - unfold handleVisibilityChange. destruct (intervalRef s); simpl in *; done.
  - unfold handleVisibilityChange. by destruct (intervalRef s).
  - unfold handleVisibilityChange. by destruct (intervalRef s).
  - apply dispatch_unchanged_count; [|done].
    change (Some (handleVisibilityChange
                    (retryCount (view (handleVisibilityChange
                                         (retryCount (view s)) true s)))
                    true
                    (handleVisibilityChange (retryCount (view s)) true s))
            = Some (handleVisibilityChange (retryCount (view s)) true s)).
    by rewrite hidden_without_timer.
Qed.

(** X9: when the tab becomes visible in a reachable state one automatic
    fetch leaves at once and exactly one interval is armed, due
    [POLL_INTERVAL] after that moment; the view and the pending retries
    are left as they are. *)
Theorem visible_fetches_and_rearms s :
  reachable s →
  ∃ s',
    dispatch (VisibilityChange false) s = Some s'
    ∧ requests s'
      = <[fresh s := {| req_closure := retryCount (view s);
                        req_manual := false |}]> (requests s)
    ∧ requests s !! fresh s = None
    ∧ intervals s'
      = {[ Pos.succ (fresh s)
           := {| iv_period := POLL_INTERVAL;
                 iv_due := clock s + POLL_INTERVAL;
                 iv_closure := retryCount (view s) |} ]}
    ∧ view s' = view s
    ∧ timeouts s' = timeouts s.
Proof.
  intros R. apply wf_reachable in R.
  destruct (fresh_unused s R) as [_ Fq].
  exists (handleVisibilityChange (retryCount (view s)) false s).
  unfold handleVisibilityChange.
  split_and!; try done.
  - apply dispatch_unchanged_count; [done|]. by rewrite view_startPolling.
  - by destruct (quiet_startPolling (retryCount (view s))
                   (fetchConfigStatus (retryCount (view s)) false s)) as [-> _].
  - by rewrite startPolling_intervals by (by apply wf_fetchConfigStatus).
  - by rewrite view_startPolling.
  - by rewrite timeouts_startPolling.
Qed.

(** ** Responses that are not 2xx *)

(** X10: a response outside 200..299 is a failure whatever its body: the
    error reads "HTTP error! status: " and the status, the body is never
    stored, and [lastUpdate] and [retryCount] stay. *)
Theorem http_error_is_a_failure s id r status body :
  requests s !! id = Some r →
  status < 200 ∨ 299 < status →
  ∃ s',
    dispatch (FetchSettles id (Responds status body)) s = Some s'
    ∧ error (view s') = Some ("HTTP error! status: " +:+ pretty status)
    ∧ lastUpdate (view s') = lastUpdate (view s)
    ∧ retryCount (view s') = retryCount (view s)
    ∧ configStatus (view s')
      = (if req_closure r <? MAX_RETRIES then configStatus (view s)
         else None).
Proof.
  intros L Hs. rewrite (dispatch_settles _ _ _ _ L).
  eexists. split; [reflexivity|]. rewrite view_commit.
  assert (A : attempt (Responds status body)
              = inl (ErrorObject ("HTTP error! status: " +:+ pretty status))).
  { unfold attempt, response_ok.
    destruct (N.leb_spec 200 status), (N.leb_spec status 299); simpl;
      try done; lia. }
  by rewrite (view_resume_rejected _ _ _ _ A).
Qed.

(** ** The cleanup *)

(** X11: the cleanup of the effect, run in a reachable state, leaves no
    interval armed, cancels the retry [retryTimeoutRef] names and arms
    nothing, and leaves the view and the requests in flight as they are. *)
Theorem cleanup_stops_timers_not_requests s :
  reachable s →
  intervals (cleanup s) = ∅
  ∧ (∀ id, retryTimeoutRef s = Some id → timeouts (cleanup s) !! id = None)
  ∧ (∀ id t, timeouts (cleanup s) !! id = Some t →
             timeouts s !! id = Some t)
  ∧ view (cleanup s) = view s
  ∧ requests (cleanup s) = requests s.
Proof.
  intros R. apply wf_reachable in R. split_and!.
  - by apply intervals_cleanup.
  - apply cleanup_cancels_retry.
  - apply timeouts_cleanup_sub.
  - apply view_cleanup.
  - by destruct (quiet_cleanup s).
Qed.

(** ** What a retry sends *)

(** X12: when a pending retry fires in a reachable state, [retryCount]
    grows by one and two requests leave: one from the callback that armed
    the retry, which still reads the old [retryCount], and one from the
    effect, which runs again; the interval is armed anew. *)
Theorem retry_sends_two_requests s id t :
  reachable s →
  timeouts s !! id = Some t →
  to_due t ≤ clock s →
  ∃ s',
    dispatch (TimeoutFires id) s = Some s'
    ∧ retryCount (view s') = retryCount (view s) + 1
    ∧ requests s'
      = <[Pos.succ (fresh s)
          := {| req_closure := retryCount (view s) + 1;
                req_manual := false |}]>
          (<[fresh s := {| req_closure := to_closure t;
                           req_manual := false |}]> (requests s))
    ∧ to_closure t < MAX_RETRIES
    ∧ timeouts s' !! id = None
    ∧ intervals s'
      = {[ Pos.succ (Pos.succ (fresh s))
           := {| iv_period := POLL_INTERVAL;
                 iv_due := clock s + POLL_INTERVAL;
                 iv_closure := retryCount (view s) + 1 |} ]}.
Proof.
  intros R L Hdue.
  destruct (retry_delay_bounded _ _ _ R L) as (K & _ & _).
  apply wf_reachable in R.
  unfold dispatch. simpl. rewrite L. simpl.
  rewrite (proj2 (N.leb_le _ _) Hdue). simpl.
  set (s1 := retryCallback (to_closure t) (clearTimeout id s)).
  assert (W1 : wf s1)
    by (by apply wf_fetchConfigStatus, wf_withView, wf_clearTimeout).
  eexists. split; [reflexivity|]. split_and!.
  - by rewrite view_commit.
  - unfold commit. rewrite decide_False by (simpl; lia).
    destruct (quiet_startPolling (retryCount (view s1))
                (fetchConfigStatus (retryCount (view s1)) false (cleanup s1)))
      as [Q _].
    unfold effect. rewrite Q. simpl.
    assert (F : fresh (cleanup s1) = Pos.succ (fresh s)).
    { unfold cleanup. destruct (intervalRef s1); simpl;
        by destruct (retryTimeoutRef _). }
    destruct (quiet_cleanup s1) as [Qc _]. by rewrite F, Qc.
  - done.
  - unfold commit. rewrite decide_False by (simpl; lia).
    unfold effect. rewrite timeouts_startPolling. simpl.
    destruct (timeouts (cleanup s1) !! id) eqn:E; [|done].
    apply timeouts_cleanup_sub in E. simpl in E.
    by rewrite lookup_delete_eq in E.
  - rewrite (intervals_commit _ _ W1).
    rewrite decide_False by (simpl; lia). done.
Qed.

(** ** Instances *)

Lemma reachable_after es : reachable (after es).
Proof.
  unfold after. destruct (run es mount) as [s|] eqn:E; simpl.
  - eapply reachable_run; [apply reachable_mount|done].
  - apply reachable_mount.
Qed.

Lemma time_since_update_units_witness :
  getTimeSinceUpdate 65000
    {| configStatus := None; isLoading := false; lastUpdate := Some 5000;
       isRefreshing := false; retryCount := 0; error := None |}
  = pretty ((65000 - 5000) / 60000) +:+ "m ago".
Proof.
  pose proof (time_since_update_units 65000
                {| configStatus := None; isLoading := false;
                   lastUpdate := Some 5000; isRefreshing := false;
                   retryCount := 0; error := None |} 5000
                eq_refl ltac:(lia)) as H.
  cbv zeta in H. destruct H as (_ & H & _). apply H. lia.
Defined.


Lemma icon_agrees_with_colour_witness :
  getStatusIcon {| configStatus := None; isLoading := true;
                   lastUpdate := None; isRefreshing := false;
                   retryCount := 0; error := Some "Failed to fetch" |}
  = Wifi.
Proof.
  destruct (icon_agrees_with_colour
              {| configStatus := None; isLoading := true; lastUpdate := None;
                 isRefreshing := false; retryCount := 0;
                 error := Some "Failed to fetch" |}) as [H _].
  apply H. left. reflexivity.
Defined.

Lemma loading_never_returns_witness :
  isLoading (view (after (four_failures ++ [ClickRefresh]))) = false.
Proof.
  apply (loading_never_returns [ClickRefresh] (after four_failures)).
  - reflexivity.
  - vm_compute. reflexivity.
Defined.

Lemma poll_timer_is_current_witness :
  iv_closure {| iv_period := 5000; iv_due := 5000; iv_closure := 0 |}
  = retryCount (view mount).
Proof.
  apply (poll_timer_is_current mount 2
           {| iv_period := 5000; iv_due := 5000; iv_closure := 0 |}).
  - apply reachable_mount.
  - reflexivity.
Defined.

Lemma visible_fetches_and_rearms_witness :
  ∃ s', dispatch (VisibilityChange false) (after hidden_mid_retry) = Some s'
        ∧ view s' = view (after hidden_mid_retry).
Proof.
  destruct (visible_fetches_and_rearms (after hidden_mid_retry))
    as (s' & D & _ & _ & _ & V & _).
  - apply reachable_after.
  - exists s'. by split.
Defined.

Lemma hidden_pauses_polling_only_witness :
  ∃ s', dispatch (VisibilityChange true) mount = Some s' ∧ intervals s' = ∅.
Proof.
  destruct (hidden_pauses_polling_only mount) as (s' & D & I & _).
  - apply reachable_mount.
  - exists s'. by split.
Defined.

Lemma http_error_is_a_failure_witness :
  ∃ s', dispatch (FetchSettles 1 (Responds 500 (inr valid_config))) mount
        = Some s'
        ∧ error (view s') = Some ("HTTP error! status: " +:+ pretty 500).
Proof.
  destruct (http_error_is_a_failure mount 1
              {| req_closure := 0; req_manual := false |} 500
              (inr valid_config))
    as (s' & D & E & _).
  - reflexivity.
  - right. lia.
  - exists s'. by split.
Defined.

Lemma cleanup_stops_timers_not_requests_witness :
  intervals (cleanup mount) = ∅ ∧ requests (cleanup mount) = requests mount.
Proof.
  destruct (cleanup_stops_timers_not_requests mount)
    as (I & _ & _ & _ & Q).
  - apply reachable_mount.
  - by split.
Defined.

Lemma only_success_clears_error_witness :
  ∃ id status data,
    FetchSettles 4 success = FetchSettles id (Responds status (inr data))
    ∧ 200 ≤ status ≤ 299.
Proof.
  destruct (only_success_clears_error (FetchSettles 4 success)
              (after [FetchSettles 1 failure; ClickRefresh])
              (after refresh_mid_retry) "Failed to fetch")
    as (id & status & data & E & B & _).
  - reflexivity.
  - vm_compute. reflexivity.
  - reflexivity.
  - by exists id, status, data.
Defined.

Lemma retry_sends_two_requests_witness :
  ∃ s', dispatch (TimeoutFires 3) (after [FetchSettles 1 failure; Elapse 2000])
        = Some s'
        ∧ retryCount (view s') = 1.
Proof.
  destruct (retry_sends_two_requests
              (after [FetchSettles 1 failure; Elapse 2000]) 3
              {| to_delay := 2000; to_due := 2000; to_closure := 0 |})
    as (s' & D & K & _).
  - apply reachable_after.
  - reflexivity.
  - by vm_compute.
  - exists s'. split; [exact D|exact K].
Defined.

Lemma retry_delay_bounded_witness :
  to_delay {| to_delay := 8000; to_due := 19000; to_closure := 2 |} ≤ 8000.
Proof.
  apply (retry_delay_bounded (after three_failures) 12
           {| to_delay := 8000; to_due := 19000; to_closure := 2 |}).
  - apply reachable_after.
  - reflexivity.
Defined.

End DashboardMore.

Module ChatMore.
Import Chat ChatFacts.

Lemma splitBold_cons acc c u :
  splitBold acc (c :: u)
  = match matchBold (c :: u) with
    | Some (body, rest) =>
        reverse acc :: ([42; 42] ++ body ++ [42; 42]) :: splitBold [] rest
    | None => splitBold (c :: acc) u
    end.
Proof.
  simp splitBold.
  generalize (Equations.Prop.Logic.inspect (matchBold (c :: u))).
  intros [[[body rest]|] E]; simp splitBold; by rewrite E.
Qed.

Lemma matchBold_shorter' u body rest :
  matchBold u = Some (body, rest) → (length rest < length u)%nat.
Proof.
  destruct u as [|c1 [|c2 u1]]; simpl; try done.
  destruct ((c1 =? 42) && (c2 =? 42)); [|done].
  destruct (spanPlain u1) as [a b] eqn:E.
  assert (L : (length b ≤ length u1)%nat).
  { clear -E. revert a b E. induction u1 as [|d v IH]; simpl; intros a b.
    - by intros [= <- <-].
    - destruct (d =? 42); [intros [= <- <-]; simpl; lia|].
      destruct (spanPlain v) as [a' b']. intros [= <- <-].
      specialize (IH _ _ eq_refl). lia. }
  destruct a as [|c a]; [done|]. destruct b as [|d1 [|d2 r]]; try done.
  destruct ((d1 =? 42) && (d2 =? 42)); [|done].
  intros [= _ <-]. simpl in *. lia.
Qed.

Lemma spanPlain_spec u a b :
  spanPlain u = (a, b) →
  u = a ++ b ∧ plain a ∧ (b = [] ∨ ∃ b', b = 42 :: b').
Proof.
  revert a b. induction u as [|c u IH]; simpl; intros a b.
  - intros [= <- <-]. split_and!; [done|constructor|by left].
  - destruct (N.eqb_spec c 42) as [->|Hc].
    + intros [= <- <-]. split_and!; [done|constructor|right; by eexists].
    + destruct (spanPlain u) as [a' b'] eqn:E. intros [= <- <-].
      destruct (IH _ _ eq_refl) as (-> & P & T).
      split_and!; [done|by constructor|done].
Qed.

Lemma spanPlain_plain body rest :
  plain body → spanPlain (body ++ 42 :: rest) = (body, 42 :: rest).
Proof.
  induction 1 as [|c body Hc _ IH]; simpl; [done|].
  destruct (N.eqb_spec c 42); [done|]. by rewrite IH.
Qed.

(** What a match is. *)
Lemma matchBold_Some u body rest :
  matchBold u = Some (body, rest)
  ↔ u = [42; 42] ++ body ++ [42; 42] ++ rest ∧ body ≠ [] ∧ plain body.
Proof.
  split.
  - destruct u as [|c1 [|c2 u1]]; simpl; try done.
    destruct (N.eqb_spec c1 42) as [->|]; [|done].
    destruct (N.eqb_spec c2 42) as [->|]; [|done]. simpl.
    destruct (spanPlain u1) as [a b] eqn:E.
    apply spanPlain_spec in E as (-> & P & _).
    destruct a as [|c a]; [done|]. destruct b as [|d1 [|d2 r]]; try done.
    destruct (N.eqb_spec d1 42) as [->|]; [|done].
    destruct (N.eqb_spec d2 42) as [->|]; [|done]. simpl.
    by intros [= <- <-].
  - intros (-> & Hne & P). simpl.
    rewrite (spanPlain_plain body (42 :: rest) P).
    by destruct body.
Qed.

Lemma splitBold_concat_acc n acc u :
  (length u ≤ n)%nat → concat (splitBold acc u) = reverse acc ++ u.
Proof.
  revert acc u. induction n as [|n IH]; intros acc u Hn.
  - destruct u; [|simpl in Hn; lia]. simp splitBold. simpl.
    by rewrite !app_nil_r.
  - destruct u as [|c u]; [simp splitBold; simpl; by rewrite !app_nil_r|].
    rewrite splitBold_cons.
    destruct (matchBold (c :: u)) as [[body rest]|] eqn:E.
    + pose proof (matchBold_shorter' _ _ _ E) as Hl.
      apply matchBold_Some in E as (E & _ & _).
      rewrite E. simpl. rewrite IH by (simpl in *; lia). simpl.
      by rewrite <- !app_assoc.
    + rewrite IH by (simpl in *; lia). rewrite reverse_cons.
      by rewrite <- app_assoc.
Qed.
(** X13: the parts [renderTextWithBold] splits a text into, put together
    again, are the text. *)
Theorem split_bold_lossless text : concat (splitBold [] text) = text.
Proof. by rewrite (splitBold_concat_acc (length text)). Qed.

(** Where no match starts, the scan moves on by one character. *)
Lemma splitBold_skip acc pre u :
  (∀ i, (i < length pre)%nat → matchBold (drop i (pre ++ u)) = None) →
  splitBold acc (pre ++ u) = splitBold (reverse pre ++ acc) u.
Proof.
  revert acc. induction pre as [|c pre IH]; intros acc H; [done|].
  simpl. rewrite splitBold_cons.
  pose proof (H 0%nat ltac:(simpl; lia)) as H0.
  change (matchBold (c :: (pre ++ u)) = None) in H0. rewrite H0.
  rewrite IH.
  - by rewrite reverse_cons, <- app_assoc.
  - intros i Hi. apply (H (S i)). simpl. lia.
Qed.

Lemma matchBold_needs_stars u :
  startsWith [42; 42] u = false → matchBold u = None.
Proof.
  destruct u as [|c1 [|c2 u]]; try done. unfold matchBold.
  destruct (N.eqb_spec c1 42) as [->|]; [|done].
  destruct (N.eqb_spec c2 42) as [->|]; [|done]. done.
Qed.

Lemma includes_drop needle u i :
  includes needle u = false → includes needle (drop i u) = false.
Proof.
  revert u. induction i as [|i IH]; intros u; [by rewrite drop_0|].
  destruct u as [|c u]; [done|]. simpl.
  intros H. apply orb_false_iff in H as [_ H]. by apply IH.
Qed.

Lemma includes_head needle u :
  includes needle u = false → startsWith needle u = false.
Proof. destruct u; simpl; intros H; by apply orb_false_iff in H as [? _]. Qed.

Lemma splitBold_plain_end acc : splitBold acc [] = [reverse acc].
Proof. by simp splitBold. Qed.

(** X14: a text without two asterisks in a row is rendered as one plain
    span holding the whole text. *)
Theorem text_without_markers_is_plain text :
  includes [42; 42] text = false →
  renderTextWithBold text = [Span text].
Proof.
  intros H. unfold renderTextWithBold.
  rewrite <- (app_nil_r text) at 1. rewrite splitBold_skip.
  - rewrite splitBold_plain_end, app_nil_r, reverse_involutive.
    rewrite list_fmap_singleton. unfold renderPart.
    by rewrite (includes_head _ _ H).
  - intros i _. rewrite app_nil_r.
    by apply matchBold_needs_stars, includes_head, includes_drop.
Qed.

Lemma startsWith_app prefix u : startsWith prefix (prefix ++ u) = true.
Proof. induction prefix as [|c p IH]; simpl; [done|]. by rewrite N.eqb_refl. Qed.

Lemma slice_marked body :
  slice 2 2 ([42; 42] ++ body ++ [42; 42]) = body.
Proof.
  unfold slice. rewrite !length_app. simpl length.
  replace ((2 + (length body + 2) - 2 - 2 `min` (2 + (length body + 2))))%nat
    with (length body) by lia.
  replace (2 `min` (2 + (length body + 2)))%nat with 2%nat by lia.
  simpl. by rewrite drop_0, take_app_length.
Qed.

(** No match starts inside a text without two asterisks in a row, even when
    a marker follows it. *)
Lemma no_match_before_marker pre body rest i :
  includes [42; 42] pre = false → body ≠ [] →
  (i < length pre)%nat →
  matchBold (drop i (pre ++ [42; 42] ++ body ++ [42; 42] ++ rest)) = None.
Proof.
  intros H Hb Hi. rewrite drop_app_le by lia.
  pose proof (includes_drop _ _ i H) as Hd.
  destruct (drop i pre) as [|c1 [|c2 u]] eqn:E.
  - apply (f_equal length) in E. rewrite length_drop in E. simpl in E. lia.
  - simpl. destruct (N.eqb_spec c1 42); [|done]. simpl.
    by destruct body.
  - apply includes_head in Hd. change ((c1 :: c2 :: u) ++ ?x) with (c1 :: c2 :: (u ++ x)).
    apply matchBold_needs_stars. exact Hd.
Qed.

(** X15: a passage without asterisk between two pairs of asterisks, after
    a text without two asterisks in a row, is rendered as that text in a
    plain span, the passage without its markers in bold, and then the
    rendering of what follows. *)
Theorem marked_passage_is_strong pre body rest :
  includes [42; 42] pre = false →
  body ≠ [] → plain body →
  renderTextWithBold (pre ++ [42; 42] ++ body ++ [42; 42] ++ rest)
  = Span pre :: Strong body :: renderTextWithBold rest.
Proof.
  intros H Hb P. unfold renderTextWithBold.
  rewrite splitBold_skip by (intros; by apply no_match_before_marker).
  assert (M : matchBold ([42; 42] ++ body ++ [42; 42] ++ rest)
              = Some (body, rest)) by (by apply matchBold_Some).
  change ([42; 42] ++ body ++ [42; 42] ++ rest)
    with (42 :: ([42] ++ body ++ [42; 42] ++ rest)) in *.
  rewrite splitBold_cons, M. rewrite app_nil_r, reverse_involutive.
  rewrite !fmap_cons.
  f_equal; [unfold renderPart; by rewrite (includes_head _ _ H)|].
  f_equal. unfold renderPart, endsWith.
  rewrite !reverse_app. change (reverse [42; 42]) with [42; 42].
  rewrite startsWith_app. change (startsWith [42; 42] ([42; 42] ++ body ++ [42; 42])) with true.
  simpl andb. cbv iota. by rewrite slice_marked.
Qed.

(** X16: two or more asterisks and nothing else are no match of the
    pattern, but are rendered in bold with two characters cut from each
    end: nothing is left of up to four. *)
Theorem asterisks_alone_are_cut n :
  (2 ≤ n)%nat →
  renderTextWithBold (replicate n 42) = [Strong (replicate (n - 4) 42)].
Proof.
  intros Hn. unfold renderTextWithBold.
  rewrite <- (app_nil_r (replicate n 42)) at 1. rewrite splitBold_skip.
  - rewrite splitBold_plain_end, app_nil_r, reverse_involutive.
    rewrite list_fmap_singleton. unfold renderPart, endsWith.
    rewrite reverse_replicate.
    assert (S : startsWith [42; 42] (replicate n 42) = true)
      by (by destruct n as [|[|n]]; [lia|lia|]).
    change (reverse [42; 42]) with [42; 42]. rewrite S.
    change (true && true) with true. cbv iota. f_equal. f_equal.
    unfold slice. rewrite length_replicate, drop_replicate, take_replicate.
    f_equal. lia.
  - intros i _. rewrite app_nil_r, drop_replicate.
    destruct (n - i)%nat as [|[|[|m]]]; try done.
Qed.

(** ** The page over time *)

(** X17: in every reachable state of the chat page [isLoading] is set
    exactly while a query is in flight, at most one is, and its question
    is not blank. *)
Theorem one_query_in_flight s :
  reachable s →
  (isLoading s = false ∧ posted s = [])
  ∨ (isLoading s = true ∧ ∃ q, posted s = [q] ∧ ¬ blank q).
Proof.
  induction 1 as [now|e s s' R IH Hstep]; [by left|].
  destruct e; simpl in Hstep.
  - destruct (isLoading s) eqn:L; [done|]. injection Hstep as <-.
    left. simpl. destruct IH as [[_ ?]|[? _]]; [done|congruence].
  - injection Hstep as <-. unfold handleSendMessage.
    destruct (trim (input s)) as [|c t] eqn:T; [done|].
    destruct IH as [[L P]|[L P]]; rewrite L; simpl; [|by right].
    right. split; [done|]. exists (input s). rewrite P.
    split; [done|]. intros B. apply trim_nil in B. congruence.
  - unfold resume in Hstep. destruct (posted s) as [|q rest] eqn:P; [done|].
    injection Hstep as <-. left. simpl. split; [done|].
    destruct IH as [[_ ?]|[_ (q' & E & _)]]; congruence.
  - injection Hstep as <-. exact IH.
Qed.

(** X18: no sequence of events removes or changes a message: the
    conversation after it is the conversation before it with messages
    added at the end. *)
Theorem messages_only_grow es s s' :
  run es s = Some s' → ∃ new, messages s' = messages s ++ new.
Proof.
  revert s. induction es as [|e es IH]; simpl; intros s.
  - intros [= <-]. exists []. by rewrite app_nil_r.
  - destruct (step e s) as [s1|] eqn:Hstep; simpl; [|done]. intros Hrun.
    destruct (IH _ Hrun) as [new ->].
    assert (∃ one, messages s1 = messages s ++ one) as [one ->].
    { destruct e; simpl in Hstep.
      - destruct (isLoading s); [done|]. injection Hstep as <-.
        exists []. by rewrite app_nil_r.
      - injection Hstep as <-. unfold handleSendMessage.
        destruct (_ || _); [exists []; by rewrite app_nil_r|by eexists].
      - unfold resume in Hstep. destruct (posted s); [done|].
        injection Hstep as <-. by eexists.
      - injection Hstep as <-. exists []. by rewrite app_nil_r. }
    exists (one ++ new). by rewrite app_assoc.
Qed.

(** X19: sending a question that is not blank and settling the query adds
    exactly two messages, the question as typed and then one reply,
    whatever the server does; afterwards the input is empty and enabled
    and nothing is in flight. *)
Theorem exchange_adds_question_and_reply s o :
  reachable s →
  isLoading s = false →
  ¬ blank (input s) →
  ∃ s',
    run [Sends; Settles o] s = Some s'
    ∧ messages s'
      = messages s
        ++ [ {| id := lit (pretty (clock s)); text := input s;
                sender := user; timestamp := clock s; hasTable := None;
                error := None; metadata := None |};
             reply (clock s) o ]
    ∧ isLoading s' = false
    ∧ input s' = []
    ∧ posted s' = [].
Proof.
  intros R L B.
  destruct (one_query_in_flight s R) as [[_ P]|[L' _]]; [|congruence].
  destruct (send_accepted s B L) as (M & Q & I & L1).
  simpl. unfold resume. rewrite Q, P. simpl.
  eexists. split; [reflexivity|]. simpl. rewrite M.
  assert (C : clock (handleSendMessage s) = clock s)
    by (unfold handleSendMessage; by destruct (_ || _)).
  rewrite C, <- app_assoc. by split_and!.
Qed.

Lemma includes_singleton c u : includes [c] u = true ↔ c ∈ u.
Proof.
  induction u as [|d u IH]; simpl.
  - split; [done|]. intros H. by apply elem_of_nil in H.
  - rewrite andb_true_r, orb_true_iff, IH, elem_of_cons, N.eqb_eq. done.
Qed.

(** X20: a reply is always the assistant's; it carries no error exactly
    when the response was 2xx, parsed, and held no error or an empty one;
    then its text is the answer, it has the SQL details, and it is flagged
    as a table exactly when the answer contains a vertical bar; a reply
    with an error has neither details nor flag. *)
Theorem reply_error_flag now o :
  sender (reply now o) = assistant
  ∧ (error (reply now o) = None
     ↔ ∃ data, attempt o = inr data
               ∧ (api_error data = None ∨ api_error data = Some []))
  ∧ (error (reply now o) = None →
       ∃ data, attempt o = inr data
               ∧ text (reply now o) = answer data
               ∧ is_Some (metadata (reply now o))
               ∧ (hasTable (reply now o) = Some true ↔ 124 ∈ answer data))
  ∧ (error (reply now o) ≠ None →
       metadata (reply now o) = None ∧ hasTable (reply now o) = None).
Proof.
  unfold reply. destruct (attempt o) as [err|data].
  - split_and!; try done.
    + split; [done|]. by intros (data & ? & _).
  - destruct (api_error data) as [[|c e]|] eqn:E; simpl.
    + split_and!; try done.
      * split; [|done]. intros _. exists data. rewrite E. auto.
      * intros _. exists data. split_and!; try done.
        rewrite <- includes_singleton. split; [by intros [= ->]|by intros ->].
    + split_and!; try done.
      * split; [done|]. intros (d & [= <-] & [? | ?]); congruence.
    + split_and!; try done.
      * split; [|done]. intros _. exists data. rewrite E. auto.
      * intros _. exists data. split_and!; try done.
        rewrite <- includes_singleton. split; [by intros [= ->]|by intros ->].
Qed.

(** ** Instances *)

Lemma text_without_markers_is_plain_witness :
  renderTextWithBold (lit "a*b") = [Span (lit "a*b")].
Proof. apply text_without_markers_is_plain. reflexivity. Defined.

Lemma marked_passage_is_strong_witness :
  renderTextWithBold (lit "so " ++ [42; 42] ++ lit "it" ++ [42; 42] ++ lit "!")
  = Span (lit "so ") :: Strong (lit "it") :: renderTextWithBold (lit "!").
Proof.
  apply marked_passage_is_strong.
  - reflexivity.
  - discriminate.
  - repeat constructor; discriminate.
Defined.

Lemma asterisks_alone_are_cut_witness :
  renderTextWithBold (replicate 5 42) = [Strong (replicate (5 - 4) 42)].
Proof. apply asterisks_alone_are_cut. lia. Defined.

Lemma one_query_in_flight_witness :
  (isLoading (initial 0) = false ∧ posted (initial 0) = [])
  ∨ (isLoading (initial 0) = true
     ∧ ∃ q, posted (initial 0) = [q] ∧ ¬ blank q).
Proof. apply one_query_in_flight. apply reachable_initial. Defined.

Lemma messages_only_grow_witness :
  ∃ s' new,
    run [Types (lit "hi"); Sends] (initial 0) = Some s'
    ∧ messages s' = messages (initial 0) ++ new.
Proof.
  eexists.
  edestruct (messages_only_grow [Types (lit "hi"); Sends] (initial 0))
    as [new E].
  - reflexivity.
  - exists new. split; [reflexivity|exact E].
Defined.

Lemma exchange_adds_question_and_reply_witness :
  let s := {| messages := messages (initial 0); input := lit "hi";
              isLoading := false; posted := []; clock := 0 |} in
  ∃ s', run [Sends; Settles (Rejects OtherValue)] s = Some s'
        ∧ isLoading s' = false ∧ posted s' = [].
Proof.
  intros s.
  destruct (exchange_adds_question_and_reply s (Rejects OtherValue))
    as (s' & Hrun & _ & L & _ & P).
  - apply (reachable_step (Types (lit "hi")) (initial 0));
      [apply reachable_initial | reflexivity].
  - reflexivity.
  - intros B. apply Forall_cons in B as [B _]. discriminate B.
  - exists s'. by split_and!.
Defined.

Lemma reply_error_flag_witness :
  sender (reply 0 (Rejects OtherValue)) = assistant.
Proof. apply (reply_error_flag 0 (Rejects OtherValue)). Defined.

End ChatMore.

Module SettingsFacts.
Import Chat Settings ChatFacts.

(** X21: [maskValue] keeps the length; every character from the fifth on
    is a bullet; a value of at most four characters is all bullets, a
    longer one keeps its first four characters in clear. *)
Theorem mask_keeps_length_hides_tail v :
  length (maskValue v) = length v
  ∧ (∀ i, (4 ≤ i < length v)%nat → maskValue v !! i = Some bullet)
  ∧ ((length v ≤ 4)%nat → maskValue v = replicate (length v) bullet)
  ∧ ((4 < length v)%nat → take 4 (maskValue v) = take 4 v).
Proof.
  unfold maskValue.
  destruct (Nat.eqb_spec (length v) 0) as [E|E].
  { apply nil_length_inv in E as ->. split_and!; try done. simpl. lia. }
  destruct (Nat.leb_spec (length v) 4) as [L|L].
  - split_and!; [apply length_replicate| |done|lia].
    intros i Hi. lia.
  - split_and!.
    + rewrite length_app, length_take, length_replicate. lia.
    + intros i Hi. rewrite lookup_app_r; rewrite length_take; [|lia].
      apply lookup_replicate. split; [done|lia].
    + lia.
    + intros _. rewrite take_app_le by (rewrite length_take; lia).
      by rewrite take_take, Nat.min_id.
Qed.

(** X22: a character typed at the end of a hidden field is appended to the
    mask, not to the value: the stored value differs from the old value
    with the character appended as soon as the old value has a character
    other than a bullet at a masked position; typed after the field was
    made visible, the character is appended to the value. *)
Theorem typing_into_hidden_field which c s :
  isVisible (getField which s) = false →
  let old := value (getField which s) in
  let s' := onChange which (λ t, t ++ [c]) s in
  value (getField which s') = maskValue old ++ [c]
  ∧ (∀ i x, old !! i = Some x → x ≠ bullet →
            (4 ≤ i)%nat ∨ (length old ≤ 4)%nat →
            value (getField which s') ≠ old ++ [c])
  ∧ value (getField which
             (onChange which (λ t, t ++ [c]) (toggleVisibility which s)))
    = old ++ [c].
Proof.
  intros H old s'.
  assert (V : value (getField which s') = maskValue old ++ [c]).
  { subst s'. unfold onChange, shown. rewrite H. by destruct which. }
  split_and!; [done| |].
  - intros i x Lx Hx Hi. rewrite V. intros E. apply app_inv_tail in E.
    destruct (mask_keeps_length_hides_tail old) as (_ & Hm & Hs & _).
    apply lookup_lt_Some in Lx as Hl. rewrite <- E in Lx.
    destruct (Nat.leb_spec (length old) 4) as [L|L].
    + rewrite (Hs L) in Lx. apply lookup_replicate in Lx as [? _]. congruence.
    + rewrite Hm in Lx by lia. congruence.
  - subst old. unfold onChange, toggleVisibility, shown.
    destruct which; simpl in *; by rewrite H.
Qed.

(** ** [handleSave] *)

(** X23: [handleSave] on a field whose value is empty or white space only
    sends nothing: the status is the error "Please enter a value first"
    for that field, one reset is armed 3000 ms ahead, and both fields are
    left as they are. *)
Theorem blank_value_is_not_saved which s :
  blank (value (getField which s)) →
  let s' := handleSave which s in
  saving s' = saving s
  ∧ saveStatus s'
    = {| type := error; message := Some (lit "Please enter a value first");
         field := Some which |}
  ∧ resets s' = resets s ++ [(3000, clock s + 3000)]
  ∧ apiKey s' = apiKey s ∧ dbConnection s' = dbConnection s.
Proof.
  intros B. apply trim_nil in B. unfold handleSave.
  assert (G : getField which
                (setSaveStatus {| type := loading; message := None;
                                  field := Some which |} s)
              = getField which s) by (by destruct which).
  rewrite G, B. done.
Qed.

(** A value that is not blank is sent as typed, white space at its ends
    included, and the status is loading until the save settles. *)
Lemma save_sends_value_as_typed which s :
  ¬ blank (value (getField which s)) →
  let s' := handleSave which s in
  saving s' = saving s ++ [ {| save_field := which;
                               save_body := value (getField which s) |} ]
  ∧ saveStatus s' = {| type := loading; message := None;
                       field := Some which |}
  ∧ resets s' = resets s
  ∧ apiKey s' = apiKey s ∧ dbConnection s' = dbConnection s.
Proof.
  intros B. unfold handleSave.
  assert (G : getField which
                (setSaveStatus {| type := loading; message := None;
                                  field := Some which |} s)
              = getField which s) by (by destruct which).
  rewrite G. destruct (trim (value (getField which s))) eqn:T; [|done].
  destruct B. by apply trim_nil.
Qed.

Lemma orElse_nonempty a b : b ≠ [] → orElse a b ≠ [].
Proof.
  intros Hb. unfold orElse. destruct a as [[|c m]|]; simpl; done.
Qed.

(** X24: when a save settles the status is never left loading: it is
    success exactly for a 2xx response whose body parses and has the
    status "success", and otherwise an error with a message that is not
    empty; one reset is armed 3000 ms ahead and both fields are left as
    they are. *)
Theorem save_settles_into_success_or_error o s s' :
  resume o s = Some s' →
  ∃ q rest,
    saving s = q :: rest ∧ saving s' = rest
    ∧ field (saveStatus s') = Some (save_field q)
    ∧ resets s' = resets s ++ [(3000, clock s + 3000)]
    ∧ apiKey s' = apiKey s ∧ dbConnection s' = dbConnection s
    ∧ (type (saveStatus s') = success
       ∧ (∃ code data, o = Responds code (inr data)
                       ∧ 200 ≤ code ≤ 299
                       ∧ status data = Some (lit "success")
                       ∧ message (saveStatus s') = reply_message data)
       ∨ type (saveStatus s') = error
         ∧ (∃ m, message (saveStatus s') = Some m ∧ m ≠ [])
         ∧ ¬ (∃ code data, o = Responds code (inr data)
                           ∧ 200 ≤ code ≤ 299
                           ∧ status data = Some (lit "success"))).
Proof.
  unfold resume. destruct (saving s) as [|q rest] eqn:Q; [done|].
  intros [= <-]. exists q, rest. simpl. split_and!; try done.
  - unfold saved. destruct o as [|code [[]|data]]; try done.
    by destruct (_ && _).
  - unfold saved. destruct o as [|code [[]|data]].
    + right. split_and!; [done|by eexists|]. by intros (? & ? & ? & _).
    + right. split_and!; [done|by eexists|]. by intros (? & ? & ? & _).
    + destruct (response_ok code) eqn:Ok; simpl.
      * case_bool_decide as St.
        -- left. split; [done|]. exists code, data. split_and!; try done;
             unfold response_ok in Ok; apply andb_true_iff in Ok as [Lo Hi];
             by apply N.leb_le.
        -- right. split_and!; [done| |].
           ++ eexists. split; [done|]. by apply orElse_nonempty.
           ++ intros (? & ? & [= <- <-] & _ & ? ). done.
      * right. split_and!; [done| |].
        -- eexists. split; [done|]. by apply orElse_nonempty.
        -- intros (? & ? & [= <- <-] & [Lo Hi] & _).
           unfold response_ok in Ok. apply andb_false_iff in Ok as [Ok|Ok];
             apply N.leb_gt in Ok; lia.
Qed.

(** X25: after a successful save whose reply carries no message, or an
    empty one, the status line reads "Saving...". *)
Theorem success_without_message_reads_saving code data s s' :
  200 ≤ code ≤ 299 →
  status data = Some (lit "success") →
  reply_message data = None ∨ reply_message data = Some [] →
  resume (Responds code (inr data)) s = Some s' →
  type (saveStatus s') = success
  ∧ statusText (saveStatus s') = lit "Saving...".
Proof.
  intros [Lo Hi] St Hm. unfold resume.
  destruct (saving s) as [|q rest]; [done|]. intros [= <-]. simpl.
  unfold response_ok. apply N.leb_le in Lo, Hi. rewrite Lo, Hi. simpl.
  rewrite bool_decide_eq_true_2 by done. simpl.
  unfold statusText. simpl. by destruct Hm as [-> | ->].
Qed.

(** X26: in every reachable state of the settings page the status is
    loading only while a save is in flight. *)
Theorem spinner_needs_a_save_in_flight s :
  reachable s → type (saveStatus s) = loading → saving s ≠ [].
Proof.
  induction 1 as [now|e s s' R IH Hstep]; [done|].
  destruct e; simpl in Hstep.
  - injection Hstep as <-. intros L. destruct which; by apply IH.
  - injection Hstep as <-. intros L. destruct which; by apply IH.
  - destruct (type (saveStatus s)) eqn:T; try done;
      injection Hstep as <-; unfold handleSave;
      (destruct (negb _); [done|]); intros _; simpl;
      by destruct (saving s).
  - unfold resume in Hstep. destruct (saving s) as [|q rest]; [done|].
    injection Hstep as <-. simpl. unfold saved.
    destruct o as [|code [[]|data]]; try done. by destruct (_ && _).
  - unfold resetFires in Hstep. destruct (resets s !! i) as [[d due]|]; [|done].
    simpl in Hstep. destruct (due <=? clock s); [|done].
    by injection Hstep as <-.
  - injection Hstep as <-. exact IH.
Qed.

(** ** Instances *)

Lemma mask_keeps_length_hides_tail_witness :
  length (maskValue (lit "secret")) = length (lit "secret").
Proof. apply (mask_keeps_length_hides_tail (lit "secret")). Defined.

Lemma typing_into_hidden_field_witness :
  let s := onChange api (λ _, lit "secret") (toggleVisibility api (initial 0)) in
  let s := toggleVisibility api s in
  value (getField api (onChange api (λ t, t ++ [33]) s))
  = maskValue (lit "secret") ++ [33].
Proof.
  intros s0 s.
  apply (typing_into_hidden_field api 33 s). reflexivity.
Defined.

Lemma blank_value_is_not_saved_witness :
  saving (handleSave api (initial 0)) = saving (initial 0).
Proof.
  apply (blank_value_is_not_saved api (initial 0)). constructor.
Defined.

Lemma save_settles_into_success_or_error_witness :
  let s := handleSave api (onChange api (λ _, lit "k") (initial 0)) in
  ∃ s' q rest, resume Rejects s = Some s' ∧ saving s = q :: rest
               ∧ saving s' = rest.
Proof.
  intros s. eexists.
  edestruct (save_settles_into_success_or_error Rejects s)
    as (q & rest & Q & Q' & _).
  - reflexivity.
  - exists q, rest. split; [reflexivity|]. by split.
Defined.

Lemma success_without_message_reads_saving_witness :
  let s := handleSave api (onChange api (λ _, lit "k") (initial 0)) in
  ∃ s', resume (Responds 200 (inr {| status := Some (lit "success");
                                     reply_message := None |})) s = Some s'
        ∧ statusText (saveStatus s') = lit "Saving...".
Proof.
  intros s. eexists.
  edestruct (success_without_message_reads_saving 200
               {| status := Some (lit "success"); reply_message := None |} s)
    as [_ T].
  - lia.
  - reflexivity.
  - by left.
  - reflexivity.
  - split; [reflexivity|exact T].
Defined.

Lemma spinner_needs_a_save_in_flight_witness :
  saving (handleSave api (onChange api (λ _, lit "k") (initial 0))) ≠ [].
Proof.
  apply spinner_needs_a_save_in_flight.
  - apply (reachable_step (ClicksSave api)
             (onChange api (λ _, lit "k") (initial 0))).
    + apply (reachable_step (Changes api (λ _, lit "k")) (initial 0));
        [apply reachable_initial | reflexivity].
    + reflexivity.
  - reflexivity.
Defined.

End SettingsFacts.

Module TablesFacts.
Import Chat Tables.

Section Rows.
Context {V D R Q : Type}.
Implicit Types s : TablesPage V D R Q.

(** X27: after a click on a header the table is keyed on that column,
    ascending if the column is new; three more clicks on it bring the same
    state back, through descending and unsorted, and the header shows the
    same mark for unsorted as for descending. *)
Theorem sort_cycles_in_three column s :
  let s1 := handleSort column s in
  sortColumn s1 = column
  ∧ (sortColumn s ≠ column → sortDirection s1 = Some asc)
  ∧ handleSort column (handleSort column (handleSort column s1)) = s1
  ∧ (sortDirection s1 = Some asc →
       sortDirection (handleSort column s1) = Some desc
       ∧ sortDirection (handleSort column (handleSort column s1)) = None
       ∧ sortMark column (handleSort column (handleSort column s1))
         = sortMark column (handleSort column s1)).
Proof.
  intros s1.
  assert (E : sortColumn s1 = column).
  { subst s1. unfold handleSort. by case_decide. }
  assert (Step : ∀ t : TablesPage V D R Q, sortColumn t = column →
            handleSort column t
            = {| sortColumn := column;
                 sortDirection := match sortDirection t with
                                  | Some asc => Some desc
                                  | Some desc => None
                                  | None => Some asc
                                  end;
                 loading := loading t; error := error t;
                 vehicleData := vehicleData t; damageData := damageData t;
                 repairData := repairData t; quoteData := quoteData t;
                 fetching := fetching t |}).
  { intros t Et. unfold handleSort. case_decide; [|done]. by rewrite Et. }
  assert (Col : ∀ t : TablesPage V D R Q,
            sortColumn (handleSort column t) = column).
  { intros t. unfold handleSort. by case_decide. }
  assert (New : sortColumn s ≠ column → sortDirection s1 = Some asc).
  { intros Hne. subst s1. unfold handleSort. by case_decide. }
  clearbody s1. split_and!.
  - done.
  - done.
  - rewrite (Step (handleSort column (handleSort column s1))) by apply Col.
    rewrite (Step (handleSort column s1)) by apply Col.
    rewrite (Step s1 E). simpl.
    destruct s1 as [c d ? ? ? ? ? ? ?]. simpl in *. subst c.
    by destruct d as [[]|].
  - intros Hd. rewrite (Step (handleSort column s1)) by apply Col.
    rewrite (Step s1 E). simpl. rewrite Hd.
    by split_and!.
Qed.

(** X28: a fetch of the tables that fails leaves the rows of all four
    tables as they were, ends the loading and stores the message of the
    failure. *)
Theorem failed_fetch_keeps_rows o err s s' :
  attempt o = inl err →
  resume o s = Some s' →
  vehicleData s' = vehicleData s ∧ damageData s' = damageData s
  ∧ repairData s' = repairData s ∧ quoteData s' = quoteData s
  ∧ loading s' = false
  ∧ error s' = Some match err with
                    | ErrorObject msg => msg
                    | OtherValue => lit "An error occurred"
                    end.
Proof.
  intros A. unfold resume. destruct (fetching s); [done|].
  rewrite A. intros [= <-]. simpl. by split_and!.
Qed.

(** X29: a 2xx reply with the status "success" replaces all four tables; a
    table the reply leaves out becomes empty. *)
Theorem successful_fetch_replaces_all_tables code result s s' :
  200 ≤ code ≤ 299 →
  status result = lit "success" →
  resume (Responds code (inr result)) s = Some s' →
  vehicleData s' = default [] (vehicle_cards (data result))
  ∧ damageData s' = default [] (damage_detections (data result))
  ∧ repairData s' = default [] (repairs (data result))
  ∧ quoteData s' = default [] (quotes (data result))
  ∧ (vehicle_cards (data result) = None → vehicleData s' = [])
  ∧ loading s' = false
  ∧ error s' = error s.
Proof.
  intros [Lo Hi] St. unfold resume. destruct (fetching s); [done|].
  unfold attempt, response_ok. apply N.leb_le in Lo, Hi. rewrite Lo, Hi.
  simpl. rewrite bool_decide_eq_true_2 by done. intros [= <-]. simpl.
  split_and!; try done. by intros ->.
Qed.

(** X30: in every reachable state of the tables page [loading] is set
    exactly while a fetch is in flight, at most one is, and no error is
    shown meanwhile. *)
Theorem loading_while_fetching s :
  reachable s →
  (loading s = true ∧ fetching s = 1%nat ∧ error s = None)
  ∨ (loading s = false ∧ fetching s = 0%nat).
Proof.
  induction 1 as [|e s s' Rs IH Hstep]; [by left|].
  destruct e; simpl in Hstep.
  - injection Hstep as <-. unfold handleSort. by case_decide.
  - destruct (loading s) eqn:L; [done|]. injection Hstep as <-.
    destruct IH as [[? _]|[_ F]]; [congruence|]. left. simpl. by rewrite F.
  - unfold resume in Hstep. destruct (fetching s) as [|n] eqn:F; [done|].
    injection Hstep as <-. destruct IH as [(_ & F' & _)|[_ F']]; [|congruence].
    right. assert (n = 0%nat) as -> by congruence.
    by destruct (attempt o).
Qed.

End Rows.

(** ** Instances *)

Lemma sort_cycles_in_three_witness :
  sortColumn (handleSort (lit "card_id") (mount (VehicleCard := unit)
                (DamageDetection := unit) (Repair := unit) (Quote := unit)))
  = lit "card_id".
Proof. apply sort_cycles_in_three. Defined.

Lemma failed_fetch_keeps_rows_witness :
  ∃ s' : TablesPage unit unit unit unit,
    resume (Responds 500 (inl [])) mount = Some s'
    ∧ vehicleData s' = vehicleData (mount (VehicleCard := unit)
                         (DamageDetection := unit) (Repair := unit)
                         (Quote := unit)).
Proof.
  eexists.
  edestruct (failed_fetch_keeps_rows (V := unit) (D := unit) (R := unit)
               (Q := unit) (Responds 500 (inl []))
               (ErrorObject (lit ("HTTP error! status: " +:+ pretty 500)))
               mount) as (H & _).
  - reflexivity.
  - reflexivity.
  - split; [reflexivity|exact H].
Defined.

Lemma successful_fetch_replaces_all_tables_witness :
  let result : ApiResponse unit unit unit unit :=
    {| status := lit "success"; message := None;
       data := {| vehicle_cards := Some [tt]; damage_detections := None;
                  repairs := None; quotes := None |} |} in
  ∃ s', resume (Responds 200 (inr result)) mount = Some s'
        ∧ vehicleData s' = [tt] ∧ damageData s' = [].
Proof.
  intros result. eexists.
  edestruct (successful_fetch_replaces_all_tables 200 result mount)
    as (Hv & Hd & _).
  - lia.
  - reflexivity.
  - reflexivity.
  - split; [reflexivity|]. by split.
Defined.

Lemma loading_while_fetching_witness :
  let s : TablesPage unit unit unit unit := mount in
  (loading s = true ∧ fetching s = 1%nat ∧ error s = None)
  ∨ (loading s = false ∧ fetching s = 0%nat).
Proof. intros s. apply loading_while_fetching. apply reachable_mount. Defined.

End TablesFacts.
